(** * web.py: leader/follower dispatch and token streaming

    A shallow embedding of the request handlers and of the follower loop of
    [src/web.py], and the properties of the dispatch and streaming layer.

    The handlers are written in a small state-and-exception monad over a
    [world]: what the peer of the connection will send and how long it
    stays, what the collective channel will deliver, what the engine will
    produce, the local variables of the running handler, and the log of
    everything the handler did, each step with the local variables as they
    were right after it.

    The file has the definitions first (values, the monad, the primitives,
    the handlers, the vocabulary of the statements, the event loop, the
    example inputs), then the lemmas about the runs of the handlers, then
    the properties, one section per subject. *)

From Stdlib Require Import ZArith List Lia Bool Ascii String.
From stdpp Require Import base option list strings gmap sorting.

Open Scope string_scope.
Open Scope Z_scope.
Open Scope list_scope.

(** ** Python values *)

(** A float literal, [digits * 10^(-scale)]: [0.7] is [Dec 7 1]. Floats are
    only passed around by this layer, never computed with. *)
Record pyfloat := Dec { digits : Z; scale : nat }.

#[warnings="-register-all"]
Inductive pyval :=
| PNone
| PInt (z : Z)
| PFloat (f : pyfloat)
| PStr (s : string)
| PList (l : list pyval).

(** What the engine yields: the 5-tuple unpacked by the [for] loops. *)
Record token_event := TokenEvent {
  token : pyval;
  word : pyval;
  prob : pyval;
  place : pyval;
  top5 : pyval
}.

Inductive exn :=
| KeyError (k : string)
| TypeError
| JSONDecodeError
| UnicodeDecodeError
| UnboundLocalError (x : string)
| IndexError
| WebSocketDisconnect
| RuntimeError (msg : string).

(** The four arguments of an engine call:
    [(prompt, max_gen_len, temperature, top_p)]. *)
Record call_args := CallArgs {
  a_prompt : pyval;
  a_max_gen_len : pyval;
  a_temperature : pyval;
  a_top_p : pyval
}.

(** A generator object: the events it will yield when iterated and whether
    it then finishes or raises. *)
Record gen_output := GenOutput {
  items : list token_event;
  failure : option exn
}.

Inductive meth := ProbsStream | Generate.

(** The outcome of one [dist.broadcast_object_list] call on a rank. *)
Inductive bc_outcome :=
| BcOk (received : list pyval)
| BcErr (e : exn).

(** The content of a request body or of a file as [json.loads] sees it:
    bytes that do not decode as text, text that is not JSON, a JSON object,
    or another JSON value. *)
Inductive json_body :=
| JUndecodable
| JMalformed
| JObject (fields : gmap string pyval)
| JOther (v : pyval).

(** A message of the peer on a WebSocket: a text frame or a binary frame. *)
Inductive ws_frame :=
| Text (s : string)
| Binary (b : list Byte.byte).

(** ** Observable steps *)

Inductive event :=
| EReqJson
| EAccept
| ERecvText (s : string)
| ERecvBytes (b : list Byte.byte)
| ESendText (s : string)
| EClose
| ESleep0
| EYield (data : string)
| EBroadcast (sent : list pyval)
| EBroadcastRecv (got : list pyval)
| EBroadcastFail (e : exn)
| EPrint (args : list pyval)
| ECall (m : meth) (a : call_args)
| ENext (ev : token_event)
| EStop
| ERaise (e : exn)
| EAssign (x : string) (v : Z).

(** The local variables of [generate_ws]; unbound until assigned. *)
Record frame := Frame {
  recv_tokens : option Z;
  send_tokens : option Z
}.

(** One entry of the log: a step, and the local variables right after it. *)
Record obs := Obs { what : event; vars : frame }.

(** The process and what is around it. Of the peer of a WebSocket: the
    messages the handler will read from it ([inbox]), and how many more
    messages it takes before it has gone ([peer_takes], [None] for a peer
    that never goes). *)
Record world := World {
  rank : Z;
  engine : meth -> call_args -> gen_output;
  http_body : json_body;
  inbox : list ws_frame;
  peer_takes : option nat;
  chan : list bc_outcome;
  locals : frame;
  log : list obs
}.

(** ** The monad *)

Inductive res (A : Type) :=
| Ret (a : A)
| Exc (e : exn)
| Wait
| Diverged.
Arguments Ret {A} a.
Arguments Exc {A} e.
Arguments Wait {A}.
Arguments Diverged {A}.

Definition M (A : Type) : Type := world -> res A * world.

#[export] Instance M_ret : MRet M := fun A a w => (Ret a, w).

#[export] Instance M_bind : MBind M := fun A B f c w =>
  match c w with
  | (Ret a, w') => f a w'
  | (Exc e, w') => (Exc e, w')
  | (Wait, w') => (Wait, w')
  | (Diverged, w') => (Diverged, w')
  end.

Definition raise {A} (e : exn) : M A := fun w => (Exc e, w).
Definition wait {A} : M A := fun w => (Wait, w).
Definition diverge {A} : M A := fun w => (Diverged, w).

(** [try: body / except: handler] with a bare [except]: every exception is
    caught; a handler that is suspended for ever is not an exception. *)
Definition try_except {A} (body : M A) (handler : exn -> M A) : M A := fun w =>
  match body w with
  | (Exc e, w') => handler e w'
  | r => r
  end.

Definition emit (e : event) : M unit := fun w =>
  (Ret tt, World (rank w) (engine w) (http_body w) (inbox w)
                 (peer_takes w) (chan w) (locals w)
                 (log w ++ [Obs e (locals w)])).

Definition set_locals (f : frame) : M unit := fun w =>
  (Ret tt, World (rank w) (engine w) (http_body w) (inbox w)
                 (peer_takes w) (chan w) f (log w)).

Definition set_inbox (l : list ws_frame) : M unit := fun w =>
  (Ret tt, World (rank w) (engine w) (http_body w) l
                 (peer_takes w) (chan w) (locals w) (log w)).

Definition set_takes (k : option nat) : M unit := fun w =>
  (Ret tt, World (rank w) (engine w) (http_body w) (inbox w)
                 k (chan w) (locals w) (log w)).

Definition set_chan (c : list bc_outcome) : M unit := fun w =>
  (Ret tt, World (rank w) (engine w) (http_body w) (inbox w)
                 (peer_takes w) c (locals w) (log w)).

Definition get_world : M world := fun w => (Ret w, w).

(** ** Primitives of the handlers *)

Definition set_recv (v : Z) : M unit :=
  w ← get_world;
  set_locals (Frame (Some v) (send_tokens (locals w)));;
  emit (EAssign "recv_tokens" v).

Definition set_send (v : Z) : M unit :=
  w ← get_world;
  set_locals (Frame (recv_tokens (locals w)) (Some v));;
  emit (EAssign "send_tokens" v).

Definition get_recv : M Z :=
  w ← get_world;
  match recv_tokens (locals w) with
  | Some v => mret v
  | None => raise (UnboundLocalError "recv_tokens")
  end.

Definition get_send : M Z :=
  w ← get_world;
  match send_tokens (locals w) with
  | Some v => mret v
  | None => raise (UnboundLocalError "send_tokens")
  end.

(** [await request.json()]: [json.loads] on the bytes of the body, which
    decodes them first. *)
Definition request_json : M json_body :=
  emit EReqJson;;
  w ← get_world;
  match http_body w with
  | JUndecodable => raise UnicodeDecodeError
  | JMalformed => raise JSONDecodeError
  | b => mret b
  end.

(** [body[k]] on the parsed request body. *)
Definition getitem (b : json_body) (k : string) : M pyval :=
  match b with
  | JObject o =>
      match o !! k with
      | Some v => mret v
      | None => raise (KeyError k)
      end
  | _ => raise TypeError
  end.

(** [l[i]] on a list. *)
Definition index (l : list pyval) (i : nat) : M pyval :=
  match l !! i with
  | Some v => mret v
  | None => raise IndexError
  end.

(** [await websocket.accept()]: the answer to the handshake of a client
    that asked for the connection. *)
Definition ws_accept : M unit := emit EAccept.

(** [await websocket.receive_text()]: the next message of the peer, of which
    the text is returned, so that a binary frame, which has none, raises
    [KeyError]; when there is no message the handler is told of the
    disconnect if the peer has gone, and stays suspended while it is
    there. *)
Definition ws_receive_text : M string :=
  w ← get_world;
  match inbox w with
  | Text s :: rest => set_inbox rest;; emit (ERecvText s);; mret s
  | Binary b :: rest =>
      set_inbox rest;; emit (ERecvBytes b);; raise (KeyError "text")
  | [] =>
      match peer_takes w with
      | Some O => raise WebSocketDisconnect
      | _ => wait
      end
  end.

(** What is left of the messages the peer takes after one more, if it
    takes one more. *)
Definition spend (k : option nat) : option (option nat) :=
  match k with
  | None => Some None
  | Some O => None
  | Some (S n) => Some (Some n)
  end.

(** A message to the peer: it goes out while the peer is there, and raises
    once the peer has gone. *)
Definition ws_send (e : event) : M unit :=
  w ← get_world;
  match spend (peer_takes w) with
  | Some k => set_takes k;; emit e
  | None => raise WebSocketDisconnect
  end.

(** [await websocket.send_text(s)] and [await websocket.close()]. *)
Definition ws_send_text (s : string) : M unit := ws_send (ESendText s).
Definition ws_close : M unit := ws_send EClose.
Definition sleep0 : M unit := emit ESleep0.
Definition print (args : list pyval) : M unit := emit (EPrint args).
Definition yield_data (data : string) : M unit := emit (EYield data).

(** Modelled from the spec: [Broadcast(value) -> value], all ranks receive
    the value rank 0 sent. The receiving rank's list is overwritten
    position by position. *)
Definition overwrite (object_list received : list pyval) : list pyval :=
  take (length object_list) received ++ drop (length received) object_list.

(** [dist.broadcast_object_list(object_list)]: blocks until the collective
    completes; rank 0 is the source and keeps its own list. *)
Definition broadcast_object_list (object_list : list pyval) : M (list pyval) :=
  w ← get_world;
  match chan w with
  | [] => wait
  | BcErr e :: c => set_chan c;; emit (EBroadcastFail e);; raise e
  | BcOk received :: c =>
      set_chan c;;
      if Z.eqb (rank w) 0
      then emit (EBroadcast object_list);; mret object_list
      else let l := overwrite object_list received in
           emit (EBroadcastRecv l);; mret l
  end.

(** [generator.probs_stream(...)]: creating the generator runs nothing. *)
Definition probs_stream (prompt max_gen_len temperature top_p : pyval)
  : M gen_output :=
  let a := CallArgs prompt max_gen_len temperature top_p in
  emit (ECall ProbsStream a);;
  w ← get_world;
  mret (engine w ProbsStream a).

(** [generator.generate(...)]: runs to the end; the result is dropped. *)
Definition generator_generate (prompt max_gen_len temperature top_p : pyval)
  : M unit :=
  let a := CallArgs prompt max_gen_len temperature top_p in
  emit (ECall Generate a);;
  w ← get_world;
  match failure (engine w Generate a) with
  | Some e => emit (ERaise e);; raise e
  | None => mret tt
  end.

(** [for ev in g: body(ev)] over a generator object. *)
Fixpoint for_items (l : list token_event) (fails : option exn)
    (body : token_event -> M unit) : M unit :=
  match l with
  | ev :: rest => emit (ENext ev);; body ev;; for_items rest fails body
  | [] =>
      match fails with
      | Some e => emit (ERaise e);; raise e
      | None => emit EStop
      end
  end.

Definition for_in (g : gen_output) (body : token_event -> M unit) : M unit :=
  for_items (items g) (failure g) body.

(** [while cond: body], with the loop variant read at loop entry. *)
Fixpoint while_fuel (fuel : nat) (cond : M bool) (body : M unit) : M unit :=
  b ← cond;
  if b : bool
  then match fuel with
       | O => diverge
       | S n => body;; while_fuel n cond body
       end
  else mret tt.

Definition while_ (variant : M nat) (cond : M bool) (body : M unit) : M unit :=
  n ← variant; while_fuel n cond body.

(** ** The handlers and the follower loop *)

Section Handlers.

(** [json.dumps] on the values the engine yields; the rendering of a [dict]
    around them is written out below. *)
Variable dumps_value : pyval -> string.

Definition dquote : string := String "034"%char EmptyString.

Definition json_member (kv : string * pyval) : string :=
  dquote +:+ fst kv +:+ dquote +:+ ": " +:+ dumps_value (snd kv).

Fixpoint join (sep : string) (l : list string) : string :=
  match l with
  | [] => EmptyString
  | [x] => x
  | x :: rest => x +:+ sep +:+ join sep rest
  end.

(** [json.dumps] of a [dict] with string keys, in insertion order. *)
Definition json_dumps (o : list (string * pyval)) : string :=
  "{" +:+ join ", " (map json_member o) +:+ "}".

Definition token_json (ev : token_event) : string :=
  json_dumps [("token", token ev); ("word", word ev);
              ("probability", prob ev); ("place", place ev);
              ("top5", top5 ev)].

Definition eos : string := "<EOS>".

(** Lines 121-130: the async generator handed to [EventSourceResponse]. *)
Definition generate_stream (text : pyval) : M unit :=
  print [PStr "starting stream, text:"; text];;
  g ← probs_stream text (PInt 100028) (PFloat (Dec 7 1)) (PInt 1);
  for_in g (fun ev => yield_data (token_json ev);; sleep0);;
  yield_data eos.

(** Lines 117-133: [POST /api/v1/generate]. *)
Definition generate : M (M unit) :=
  body ← request_json;
  text ← getitem body "text";
  broadcast_object_list [text; PInt 100028; PFloat (Dec 7 1); PInt 1];;
  mret (generate_stream text).

(** The handler followed by the iteration of the stream it returned, by a
    client that stays connected. *)
Definition serve_generate : M unit :=
  stream ← generate; stream.

(** Lines 154-156. *)
Definition await_acks : M unit :=
  while_ (s ← get_send; r ← get_recv; mret (Z.to_nat (s - 10 - r)))
         (r ← get_recv; s ← get_send; mret (r <? s - 10)%Z)
         (ws_receive_text;; r ← get_recv; set_recv (r + 1)).

(** Lines 150-158: the body of the [for] loop. *)
Definition ws_body (ev : token_event) : M unit :=
  ws_send_text (token_json ev);;
  s ← get_send; set_send (s + 1);;
  await_acks;;
  sleep0.

(** Lines 135-160: the WebSocket endpoint. *)
Definition generate_ws : M unit :=
  ws_accept;;
  text ← ws_receive_text;
  broadcast_object_list [PStr text; PInt 100028; PFloat (Dec 7 1); PInt 1];;
  set_recv 0;;
  set_send 0;;
  print [PStr "starting stream, text:"; PStr text];;
  g ← probs_stream (PStr text) (PInt 100028) (PFloat (Dec 7 1)) (PInt 1);
  for_in g ws_body;;
  ws_close.

(** Lines 165-172: one iteration of the follower's [while True]. *)
Definition follower_body : M unit :=
  let config := replicate 4 PNone in
  try_except
    (config ← broadcast_object_list config;
     c0 ← index config 0;
     c1 ← index config 1;
     c2 ← index config 2;
     c3 ← index config 3;
     generator_generate c0 c1 c2 c3)
    (fun _ => mret tt).

(** The first [n] iterations of [while True]: the result is [Ret] when the
    loop is about to start iteration [n+1]. *)
Fixpoint follower_loop (n : nat) : M unit :=
  match n with
  | O => mret tt
  | S k => follower_body;; follower_loop k
  end.

End Handlers.

(** ** Initial worlds and projections of the log *)

(** The arguments both handlers pass to [probs_stream]. *)
Definition stream_args (text : pyval) : call_args :=
  CallArgs text (PInt 100028) (PFloat (Dec 7 1)) (PInt 1).

(** The leader when a WebSocket client connects: [frames] is everything the
    handler will read from the client, the prompt first; [takes] is the
    number of frames the client takes before it disconnects, [None] for a
    client that never does: once it has taken that many, a send to it
    raises and a read that finds no message is told of the disconnect;
    [bc] is what the collective will do. *)
Definition ws_world (eng : meth -> call_args -> gen_output)
    (frames : list ws_frame) (takes : option nat)
    (bc : list bc_outcome) : world :=
  World 0 eng JMalformed frames takes bc (Frame None None) [].

(** The leader when an HTTP client posts [body]. *)
Definition http_world (eng : meth -> call_args -> gen_output)
    (body : json_body) (bc : list bc_outcome) : world :=
  World 0 eng body [] None bc (Frame None None) [].

(** A follower of rank [rk] to which the collective will deliver [bc]. *)
Definition follower_world (rk : Z) (eng : meth -> call_args -> gen_output)
    (bc : list bc_outcome) : world :=
  World rk eng JMalformed [] None bc (Frame None None) [].

(** The steps of a run, without the snapshots. *)
Definition trace (w : world) : list event := map what (log w).

Definition sent_frames (t : list event) : list string :=
  omap (fun e => match e with ESendText s => Some s | _ => None end) t.

Definition yielded (t : list event) : list string :=
  omap (fun e => match e with EYield s => Some s | _ => None end) t.

Definition received (t : list event) : list string :=
  omap (fun e => match e with ERecvText s => Some s | _ => None end) t.

(** The messages read from the peer, text or not. *)
Definition read (t : list event) : list ws_frame :=
  omap (fun e => match e with
                 | ERecvText s => Some (Text s)
                 | ERecvBytes b => Some (Binary b)
                 | _ => None
                 end) t.

Definition pulled (t : list event) : list token_event :=
  omap (fun e => match e with ENext ev => Some ev | _ => None end) t.

Definition broadcasts (t : list event) : list (list pyval) :=
  omap (fun e => match e with EBroadcast l => Some l | _ => None end) t.

Definition engine_calls (t : list event) : list call_args :=
  omap (fun e => match e with ECall _ a => Some a | _ => None end) t.

Definition printed (t : list event) : list (list pyval) :=
  omap (fun e => match e with EPrint a => Some a | _ => None end) t.

(** ** Vocabulary for stating what the handlers do *)

(** The world after steps that read from the peer, sent to it, rebound
    locals and logged. *)
Definition upd (w : world) (inb : list ws_frame) (k : option nat) (loc : frame)
    (es : list obs) : world :=
  World (rank w) (engine w) (http_body w) inb k (chan w) loc
        (log w ++ es).

(** The local variables once both counters are bound. *)
Definition fr (r s : Z) : frame := Frame (Some r) (Some s).

(** Steps logged while the local variables stay [f]. *)
Definition stamp (f : frame) (t : list event) : list obs :=
  map (fun e => Obs e f) t.

(** The last step of a generator that is iterated to its end. *)
Definition finish (fails : option exn) : event :=
  match fails with
  | Some e => ERaise e
  | None => EStop
  end.

(** The result of a loop that iterated a generator to its end. *)
Definition completion (fails : option exn) : res unit :=
  match fails with
  | Some e => Exc e
  | None => Ret tt
  end.

(** What [generate_ws] logs before it enters the loop. *)
Definition ws_prologue (text : string) : list obs :=
  [Obs EAccept (Frame None None);
   Obs (ERecvText text) (Frame None None);
   Obs (EBroadcast [PStr text; PInt 100028; PFloat (Dec 7 1); PInt 1])
       (Frame None None);
   Obs (EAssign "recv_tokens" 0) (Frame (Some 0) None);
   Obs (EAssign "send_tokens" 0) (fr 0 0);
   Obs (EPrint [PStr "starting stream, text:"; PStr text]) (fr 0 0);
   Obs (ECall ProbsStream (stream_args (PStr text))) (fr 0 0)].

(** The text frames of a list of messages, and those ahead of its first
    binary frame. *)
Definition texts (l : list ws_frame) : list string :=
  omap (fun f => match f with Text s => Some s | Binary _ => None end) l.

Fixpoint leading_texts (l : list ws_frame) : list string :=
  match l with
  | Text s :: rest => s :: leading_texts rest
  | _ => []
  end.

(** Two messages of the same kind, whatever they hold. *)
Definition same_kind (f1 f2 : ws_frame) : Prop :=
  match f1, f2 with
  | Text _, Text _ | Binary _, Binary _ => True
  | _, _ => False
  end.

(** The peer takes at least [n] messages. *)
Definition takes_at_least (k : option nat) (n : nat) : Prop :=
  match k with
  | None => True
  | Some m => (n <= m)%nat
  end.

(** How many of [n] messages the peer takes. *)
Definition taken (k : option nat) (n : nat) : nat :=
  match k with
  | None => n
  | Some m => Nat.min m n
  end.

(** What is left of the messages the peer takes after [n] of them. *)
Definition left_after (k : option nat) (n : nat) : option nat :=
  match k with
  | None => None
  | Some m => Some (m - n)%nat
  end.

(** How a read that finds no message ends, the peer taking [k] more
    messages: with the disconnect when it has gone, not at all while it is
    there. *)
Definition hangup (k : option nat) : res unit :=
  match k with
  | Some O => Exc WebSocketDisconnect
  | _ => Wait
  end.

(** How [generate_ws] ends when its loop ended with [res] and the peer
    takes [k] more messages: the close is a message too. *)
Definition ws_result (out : res unit) (k : option nat) : res unit :=
  match out with
  | Ret _ =>
      match spend k with
      | Some _ => Ret tt
      | None => Exc WebSocketDisconnect
      end
  | _ => out
  end.

(** What [generate_ws] logs after the loop, when the loop returned and the
    peer is there for the close. *)
Definition ws_epilogue (res : res unit) (k : option nat) (r s : Z) : list obs :=
  match res with
  | Ret _ =>
      match spend k with
      | Some _ => [Obs EClose (fr r s)]
      | None => []
      end
  | _ => []
  end.

(** What the peer still takes when [generate_ws] has ended. *)
Definition ws_left (res : res unit) (k : option nat) : option nat :=
  match res with
  | Ret _ => default k (spend k)
  | _ => k
  end.

(** What [generate] and [generate_stream] do before the loop. *)
Definition sse_prologue (text : pyval) : list event :=
  [EReqJson;
   EBroadcast [text; PInt 100028; PFloat (Dec 7 1); PInt 1];
   EPrint [PStr "starting stream, text:"; text];
   ECall ProbsStream (stream_args text)].

(** The points at which the loop is not in the middle of its bookkeeping:
    it pulls from the engine, sends, yields to the scheduler, or is done. *)
Definition quiet (e : event) : bool :=
  match e with
  | ENext _ | ESendText _ | ESleep0 | EStop | ERaise _ | EClose => true
  | _ => false
  end.

(** The bookkeeping invariant of [generate_ws] at one point of a run. *)
Definition snap_ok (o : obs) : Prop :=
  forall a b, vars o = fr a b ->
    0 <= a <= b /\ b - a <= 11 /\ (0 < a -> 10 < b) /\
    (quiet (what o) = true -> b - a <= 10).

(** What the loop does and does not do. *)
Definition loop_event (e : event) : bool :=
  match e with
  | ENext _ | ESendText _ | EAssign _ _ | ERecvText _ | ERecvBytes _ | ESleep0
  | EStop | ERaise _ => true
  | _ => false
  end.

(** [send_tokens - recv_tokens], once both are bound. *)
Definition gap (f : frame) : option Z :=
  match send_tokens f, recv_tokens f with
  | Some s, Some r => Some (s - r)
  | _, _ => None
  end.

Section RunModel.

Variable dumps_value : pyval -> string.

(** The runs of the streaming loop of [generate_ws], from a loop head where
    [recv_tokens = r], [send_tokens = s], the peer still has [ib] to send
    and takes [k] more messages: the result, the variables, the pending
    frames and what the peer still takes at the end, and what was logged on
    the way. *)
Inductive ws_run :
  list token_event -> option exn -> Z -> Z -> list ws_frame -> option nat ->
  res unit -> Z -> Z -> list ws_frame -> option nat -> list obs -> Prop :=
| ws_run_stop r s ib k :
    ws_run [] None r s ib k (Ret tt) r s ib k [Obs EStop (fr r s)]
| ws_run_raise e r s ib k :
    ws_run [] (Some e) r s ib k (Exc e) r s ib k [Obs (ERaise e) (fr r s)]
| ws_run_refused ev rest fails r s ib k :
    spend k = None ->
    ws_run (ev :: rest) fails r s ib k (Exc WebSocketDisconnect) r s ib k
      [Obs (ENext ev) (fr r s)]
| ws_run_free ev rest fails r s ib k k1 res r' s' ib' k' es :
    spend k = Some k1 ->
    s - r < 10 ->
    ws_run rest fails r (s + 1) ib k1 res r' s' ib' k' es ->
    ws_run (ev :: rest) fails r s ib k res r' s' ib' k'
      ([Obs (ENext ev) (fr r s);
        Obs (ESendText (token_json dumps_value ev)) (fr r s);
        Obs (EAssign "send_tokens" (s + 1)) (fr r (s + 1));
        Obs ESleep0 (fr r (s + 1))] ++ es)
| ws_run_acked ev rest fails r s f ib k k1 res r' s' ib' k' es :
    spend k = Some k1 ->
    s - r = 10 ->
    ws_run rest fails (r + 1) (s + 1) ib k1 res r' s' ib' k' es ->
    ws_run (ev :: rest) fails r s (Text f :: ib) k res r' s' ib' k'
      ([Obs (ENext ev) (fr r s);
        Obs (ESendText (token_json dumps_value ev)) (fr r s);
        Obs (EAssign "send_tokens" (s + 1)) (fr r (s + 1));
        Obs (ERecvText f) (fr r (s + 1));
        Obs (EAssign "recv_tokens" (r + 1)) (fr (r + 1) (s + 1));
        Obs ESleep0 (fr (r + 1) (s + 1))] ++ es)
| ws_run_binary ev rest fails r s b ib k k1 :
    spend k = Some k1 ->
    s - r = 10 ->
    ws_run (ev :: rest) fails r s (Binary b :: ib) k
      (Exc (KeyError "text")) r (s + 1) ib k1
      [Obs (ENext ev) (fr r s);
       Obs (ESendText (token_json dumps_value ev)) (fr r s);
       Obs (EAssign "send_tokens" (s + 1)) (fr r (s + 1));
       Obs (ERecvBytes b) (fr r (s + 1))]
| ws_run_stuck ev rest fails r s k k1 :
    spend k = Some k1 ->
    s - r = 10 ->
    ws_run (ev :: rest) fails r s [] k
      (hangup k1) r (s + 1) [] k1
      [Obs (ENext ev) (fr r s);
       Obs (ESendText (token_json dumps_value ev)) (fr r s);
       Obs (EAssign "send_tokens" (s + 1)) (fr r (s + 1))].

(** What the loop of [generate_stream] does with the events it pulls. *)
Definition sse_steps (evs : list token_event) : list event :=
  flat_map (fun ev => [ENext ev; EYield (token_json dumps_value ev); ESleep0])
           evs.

End RunModel.

(** ** The follower, the Command and the event loop *)

(** The engine arguments a follower takes from its [config] list. *)
Definition config_args (config : list pyval) : call_args :=
  CallArgs (default PNone (config !! 0%nat)) (default PNone (config !! 1%nat))
           (default PNone (config !! 2%nat)) (default PNone (config !! 3%nat)).

(** What one iteration of the follower does with one outcome of the
    collective. *)
Definition follower_events (eng : meth -> call_args -> gen_output)
    (b : bc_outcome) : list event :=
  match b with
  | BcErr e => [EBroadcastFail e]
  | BcOk l =>
      let config := overwrite (replicate 4 PNone) l in
      [EBroadcastRecv config; ECall Generate (config_args config)] ++
      match failure (eng Generate (config_args config)) with
      | Some e => [ERaise e]
      | None => []
      end
  end.

(** The list both handlers pass to [broadcast_object_list]. *)
Definition command (text : pyval) : list pyval :=
  [text; PInt 100028; PFloat (Dec 7 1); PInt 1].

(** Lines 110-114: the request model the module declares. *)
Record Config := {
  prompts : list string;
  max_gen_len : Z;
  temperature : pyfloat;
  top_p : pyfloat
}.

(** The leader runs one task per connection on one cooperative event loop:
    a task that was resumed runs until its next [await], and only there can
    the loop resume another one. These are the steps that are awaits. *)
Definition is_await (e : event) : bool :=
  match e with
  | EReqJson | EAccept | ERecvText _ | ERecvBytes _ | ESendText _ | EClose
  | ESleep0 | EYield _ => true
  | _ => false
  end.

(** Two connections served by the leader at the same time. *)
Inductive conn := First | Second.

#[export] Instance conn_eq_dec : EqDecision conn.
Proof. solve_decision. Defined.

(** Who holds the event loop after a task did [e] with [rest] left to do:
    nobody after an await, and nobody once the task has nothing left (it
    returned, raised, or is suspended for ever). *)
Definition holder (c : conn) (e : event) (rest : list event) : option conn :=
  if is_await e then None
  else match rest with
       | [] => None
       | _ => Some c
       end.

(** [coop cur t1 t2 tr]: [tr] is a schedule of the two tasks with what
    [t1] and [t2] remains to be done, [cur] holding the event loop. *)
Inductive coop : option conn -> list event -> list event ->
                 list (conn * event) -> Prop :=
| coop_nil : coop None [] [] []
| coop_first cur e t1 t2 tr :
    cur <> Some Second ->
    coop (holder First e t1) t1 t2 tr ->
    coop cur (e :: t1) t2 ((First, e) :: tr)
| coop_second cur e t1 t2 tr :
    cur <> Some First ->
    coop (holder Second e t2) t1 t2 tr ->
    coop cur t1 (e :: t2) ((Second, e) :: tr).

(** What connection [c] does in a schedule. *)
Definition project (c : conn) (tr : list (conn * event)) : list event :=
  omap (fun ce => if decide (fst ce = c) then Some (snd ce) else None) tr.

(** The trace of the handler serving connection [c]. *)
Definition task_of (c : conn) (t1 t2 : list event) : list event :=
  match c with
  | First => t1
  | Second => t2
  end.

(** The round of a connection is in flight once its Command was broadcast
    and until its generator is exhausted or has raised. *)
Definition in_flight (c : conn) (p : list (conn * event)) : bool :=
  existsb (fun e => match e with EBroadcast _ => true | _ => false end)
          (project c p) &&
  negb (existsb (fun e => match e with EStop | ERaise _ => true | _ => false end)
                (project c p)).

(** What a follower's engine is called with after one outcome of the
    collective, if it is called at all. *)
Definition delivered (b : bc_outcome) : option call_args :=
  match b with
  | BcOk l => Some (config_args (overwrite (replicate 4 PNone) l))
  | BcErr _ => None
  end.

(** The delivery of the four values of a Command. *)
Definition deliver (a : call_args) : bc_outcome :=
  BcOk [a_prompt a; a_max_gen_len a; a_temperature a; a_top_p a].

(** ** Start-up: lines 37-98 *)

Module Boot.

Inductive tensor_type := FloatTensor | CudaHalfTensor.

Inductive stream := Terminal | DevNull.

(** What [load] prints; the elapsed time of the second message is not
    modelled. *)
Inductive message := Loading | LoadedIn.

(** The calls into the libraries, with the arguments that matter here. *)
Inductive call :=
| InitProcessGroup (backend : string)
| InitializeModelParallel (world_size : Z)
| SetDevice (local_rank : Z)
| ManualSeed (seed : Z)
| OpenDevnull
| Write (to : stream) (msg : message)
| TorchLoad (path : string)
| ModelArgs (kwargs : gmap string pyval)
| Tokenizer (model_path : string)
| SetDefaultTensorType (t : tensor_type)
| Transformer (args : gmap string pyval)
| LoadStateDict (path : string)
| MakeLLaMA.

Inductive error :=
| ValueError (s : string)
| AssertionError (checkpoints : nat) (world_size : Z)
| IndexError
| TypeError
| FileNotFoundError
| UnicodeDecodeError
| JSONDecodeError
| Raised (c : call).

(** The generator [load] returns: the arguments its model was built with,
    the checkpoint whose state it holds and the model of its tokenizer. *)
Record generator := LLaMA {
  model_args : gmap string pyval;
  state_dict : string;
  tokenizer_model : string
}.

(** The process and what it finds around it: the environment, Python's
    [int] on strings, the names [glob("*.pth")] finds in the checkpoint
    directory, the content of [params.json] if there is one, the number of
    words of a tokenizer model, which library calls raise, and the mutable
    state the start-up touches. *)
Record machine := Machine {
  environ : gmap string string;
  int_of_str : string -> option Z;
  pth_files : list string;
  params_json : option json_body;
  n_words : string -> Z;
  raises : call -> bool;
  stdout : stream;
  default_tensor_type : tensor_type;
  journal : list call
}.

Inductive result (A : Type) :=
| Ok (a : A)
| Err (e : error).
Arguments Ok {A} a.
Arguments Err {A} e.

Definition B (A : Type) : Type := machine -> result A * machine.

#[export] Instance B_ret : MRet B := fun A a m => (Ok a, m).

#[export] Instance B_bind : MBind B := fun A C f c m =>
  match c m with
  | (Ok a, m') => f a m'
  | (Err e, m') => (Err e, m')
  end.

Definition throw {A} (e : error) : B A := fun m => (Err e, m).

Definition get : B machine := fun m => (Ok m, m).

Definition record (c : call) : B unit := fun m =>
  (Ok tt, Machine (environ m) (int_of_str m) (pth_files m) (params_json m)
            (n_words m) (raises m) (stdout m) (default_tensor_type m)
            (journal m ++ [c])).

Definition set_stdout (s : stream) : B unit := fun m =>
  (Ok tt, Machine (environ m) (int_of_str m) (pth_files m) (params_json m)
            (n_words m) (raises m) s (default_tensor_type m) (journal m)).

Definition set_tensor_type (t : tensor_type) : B unit := fun m =>
  (Ok tt, Machine (environ m) (int_of_str m) (pth_files m) (params_json m)
            (n_words m) (raises m) (stdout m) t (journal m)).

(** A call into a library: it is made, and it returns or raises. *)
Definition invoke (c : call) : B unit :=
  record c;;
  m ← get;
  if raises m c then throw (Raised c) else mret tt.

(** [print(msg)]: to whatever [sys.stdout] is at that time. *)
Definition say (msg : message) : B unit :=
  m ← get; record (Write (stdout m) msg).

(** [int(os.environ.get(name, -1))] *)
Definition env_int (name : string) : B Z :=
  m ← get;
  match environ m !! name with
  | None => mret (-1)
  | Some s =>
      match int_of_str m s with
      | Some z => mret z
      | None => throw (ValueError s)
      end
  end.

(** [l[i]] with Python's negative indices. *)
Definition py_index {A} (l : list A) (i : Z) : option A :=
  if Z.leb 0 i then l !! Z.to_nat i
  else if Z.leb (- Z.of_nat (length l)) i
       then l !! Z.to_nat (Z.of_nat (length l) + i)
       else None.

(** [sorted(Path(ckpt_dir).glob("*.pth"))]: paths of one directory compare
    as their names do, character by character. *)
Definition sorted_checkpoints (m : machine) : list string :=
  merge_sort String.le (pth_files m).

(** Lines 37-47. *)
Definition setup_model_parallel : B (Z * Z) :=
  local_rank ← env_int "LOCAL_RANK";
  world_size ← env_int "WORLD_SIZE";
  invoke (InitProcessGroup "nccl");;
  invoke (InitializeModelParallel world_size);;
  invoke (SetDevice local_rank);;
  invoke (ManualSeed 1);;
  mret (local_rank, world_size).

(** [open(Path(ckpt_dir) / "params.json")] and [json.loads(f.read())]: the
    file is opened as text, so [f.read()] decodes it. *)
Definition read_params : B json_body :=
  m ← get;
  match params_json m with
  | None => throw FileNotFoundError
  | Some JUndecodable => throw UnicodeDecodeError
  | Some JMalformed => throw JSONDecodeError
  | Some b => mret b
  end.

(** [ModelArgs(max_seq_len=..., max_batch_size=..., **params)]: [params]
    has to be a mapping and may not repeat a keyword given explicitly. *)
Definition make_model_args (max_seq_len max_batch_size : Z) (params : json_body)
  : B (gmap string pyval) :=
  match params with
  | JObject o =>
      match o !! "max_seq_len", o !! "max_batch_size" with
      | None, None =>
          let kwargs := <["max_seq_len" := PInt max_seq_len]>
                          (<["max_batch_size" := PInt max_batch_size]> o) in
          invoke (ModelArgs kwargs);;
          mret kwargs
      | _, _ => throw TypeError
      end
  | _ => throw TypeError
  end.

(** Lines 50-81. *)
Definition load (ckpt_dir tokenizer_path : string) (local_rank world_size : Z)
    (max_seq_len max_batch_size : Z) : B generator :=
  m ← get;
  let checkpoints := sorted_checkpoints m in
  if negb (Z.eqb world_size (Z.of_nat (length checkpoints)))
  then throw (AssertionError (length checkpoints) world_size)
  else
    match py_index checkpoints local_rank with
    | None => throw IndexError
    | Some ckpt_path =>
        say Loading;;
        invoke (TorchLoad ckpt_path);;
        params ← read_params;
        model_args ← make_model_args max_seq_len max_batch_size params;
        invoke (Tokenizer tokenizer_path);;
        m ← get;
        let model_args :=
          <["vocab_size" := PInt (n_words m tokenizer_path)]> model_args in
        invoke (SetDefaultTensorType CudaHalfTensor);;
        set_tensor_type CudaHalfTensor;;
        invoke (Transformer model_args);;
        invoke (SetDefaultTensorType FloatTensor);;
        set_tensor_type FloatTensor;;
        invoke (LoadStateDict ckpt_path);;
        invoke MakeLLaMA;;
        say LoadedIn;;
        mret (LLaMA model_args ckpt_path tokenizer_path)
    end.

(** Lines 84-98. *)
Definition init_generator (ckpt_dir tokenizer_path : string)
    (max_seq_len max_batch_size : Z) : B generator :=
  '(local_rank, world_size) ← setup_model_parallel;
  (if Z.ltb 0 local_rank
   then invoke OpenDevnull;; set_stdout DevNull
   else mret tt);;
  load ckpt_dir tokenizer_path local_rank world_size max_seq_len
       max_batch_size.

(** What was printed where, and which checkpoints were read. *)
Definition written (j : list call) : list (stream * message) :=
  omap (fun c => match c with Write s msg => Some (s, msg) | _ => None end) j.

Definition loaded (j : list call) : list string :=
  omap (fun c => match c with TorchLoad p => Some p | _ => None end) j.

End Boot.

(** ** Concrete inputs *)

(** A rendering of values, for running the handlers on examples. *)
Definition example_dumps (v : pyval) : string :=
  match v with
  | PStr s => s
  | _ => "0"
  end.

(** The [n]-th event of the example engines. *)
Definition count_event (n : nat) : token_event :=
  TokenEvent (PInt (Z.of_nat n)) (PStr "w") (PFloat (Dec 9 1)) (PInt 0)
             (PList []).

(** An engine that yields [n] events and stops. *)
Definition counting_engine (n : nat) : meth -> call_args -> gen_output :=
  fun _ _ => GenOutput (map count_event (seq 0 n)) None.

(** An engine that yields [n] events and then raises. *)
Definition failing_engine (n : nat) (e : exn)
  : meth -> call_args -> gen_output :=
  fun _ _ => GenOutput (map count_event (seq 0 n)) (Some e).

(** The request body [{"text": "Hello"}]. *)
Definition hello_body : gmap string pyval := {["text" := PStr "Hello"]}.

(** Two WebSocket sessions and a schedule of them in which the second
    connection is served while the first is in the middle of its stream. *)
Abbreviation session1 :=
  (trace (snd (generate_ws example_dumps
                 (ws_world (counting_engine 2) [Text "Hello"] None
                    [BcOk []])))).

Abbreviation session2 :=
  (trace (snd (generate_ws example_dumps
                 (ws_world (counting_engine 2) [Text "World"] None
                    [BcOk []])))).

Definition overlapping_schedule : list (conn * event) :=
  map (pair First) (take 11 session1) ++ map (pair Second) session2 ++
  map (pair First) (drop 11 session1).

(** Python's [int] on the strings the examples use. *)
Definition example_int (s : string) : option Z :=
  if String.eqb s "0" then Some 0
  else if String.eqb s "1" then Some 1
  else if String.eqb s "2" then Some 2
  else None.

(** A [params.json] as the checkpoints of the model come with. *)
Definition example_params : gmap string pyval :=
  {["dim" := PInt 4096; "n_heads" := PInt 32; "vocab_size" := PInt (-1)]}.

(** A process started with the environment [env], in front of a directory
    with two checkpoints, where the library calls [bad] raise. *)
Definition example_machine (env : gmap string string) (params : json_body)
    (bad : Boot.call -> bool) : Boot.machine :=
  Boot.Machine env example_int
    ["consolidated.01.pth"; "consolidated.00.pth"] (Some params)
    (fun _ => 32000) bad Boot.Terminal Boot.FloatTensor [].

Definition torchrun_env (local_rank : string) : gmap string string :=
  {["LOCAL_RANK" := local_rank; "WORLD_SIZE" := "2"]}.

Definition no_call : Boot.call -> bool := fun _ => false.

Definition transformer_call : Boot.call -> bool := fun c =>
  match c with
  | Boot.Transformer _ => true
  | _ => false
  end.

(** ** Reasoning about runs *)

Ltac run :=
  cbv [mbind M_bind mret M_ret raise wait diverge try_except emit
       set_locals set_inbox set_takes set_chan get_world set_recv set_send
       get_recv get_send ws_accept ws_receive_text ws_send ws_send_text
       ws_close sleep0 print yield_data while_ while_fuel upd fr
       rank engine http_body inbox peer_takes chan locals log
       send_tokens recv_tokens].

Section Runs.

Variable dumps_value : pyval -> string.

Local Abbreviation token_json := (token_json dumps_value).
Local Abbreviation ws_body := (ws_body dumps_value).
Local Abbreviation ws_run := (ws_run dumps_value).
Local Abbreviation sse_steps := (sse_steps dumps_value).

Lemma await_acks_skip w r s :
  locals w = fr r s -> s - r <= 10 ->
  await_acks w = (Ret tt, w).
Proof.
  intros Hl Hle. destruct w as [rk en hb ib tk ch lo lg]. simpl in Hl.
  subst lo. unfold await_acks, while_. run.
  replace (Z.to_nat (s - 10 - r)) with 0%nat by lia. run.
  destruct (Z.ltb_spec r (s - 10)); [lia | reflexivity].
Qed.

Lemma await_acks_one w r s f rest :
  locals w = fr r s -> s - r = 11 -> inbox w = Text f :: rest ->
  await_acks w =
    (Ret tt, upd w rest (peer_takes w) (fr (r + 1) s)
       [Obs (ERecvText f) (fr r s);
        Obs (EAssign "recv_tokens" (r + 1)) (fr (r + 1) s)]).
Proof.
  intros Hl Hg Hi. destruct w as [rk en hb ib tk ch lo lg]. simpl in Hl, Hi.
  subst lo ib. unfold await_acks. run.
  replace (Z.to_nat (s - 10 - r)) with 1%nat by lia. run.
  destruct (Z.ltb_spec r (s - 10)); [| lia].
  destruct (Z.ltb_spec (r + 1) (s - 10)); [lia |].
  rewrite <- app_assoc. reflexivity.
Qed.

Lemma await_acks_binary w r s b rest :
  locals w = fr r s -> s - r = 11 -> inbox w = Binary b :: rest ->
  await_acks w =
    (Exc (KeyError "text"),
     upd w rest (peer_takes w) (fr r s) [Obs (ERecvBytes b) (fr r s)]).
Proof.
  intros Hl Hg Hi. destruct w as [rk en hb ib tk ch lo lg]. simpl in Hl, Hi.
  subst lo ib. unfold await_acks. run.
  replace (Z.to_nat (s - 10 - r)) with 1%nat by lia. run.
  destruct (Z.ltb_spec r (s - 10)); [| lia].
  reflexivity.
Qed.

Lemma await_acks_stuck w r s :
  locals w = fr r s -> s - r = 11 -> inbox w = [] ->
  await_acks w =
    (hangup (peer_takes w), w).
Proof.
  intros Hl Hg Hi. destruct w as [rk en hb ib tk ch lo lg]. simpl in Hl, Hi.
  subst lo ib. unfold await_acks. run.
  replace (Z.to_nat (s - 10 - r)) with 1%nat by lia. run.
  destruct (Z.ltb_spec r (s - 10)); [| lia].
  destruct tk as [[| m] |]; reflexivity.
Qed.

(** One iteration of the streaming loop, entered with a gap of at most 10:
    the send is refused by a peer that has gone, and otherwise the iteration
    goes as the gap and the next message of the peer have it. *)
Lemma ws_body_refused w ev :
  spend (peer_takes w) = None ->
  ws_body ev w = (Exc WebSocketDisconnect, w).
Proof.
  intros Hk. destruct w as [rk en hb ib tk ch lo lg]. simpl in Hk.
  unfold ws_body. run. rewrite Hk. reflexivity.
Qed.

Lemma ws_body_free w ev r s k1 :
  locals w = fr r s -> spend (peer_takes w) = Some k1 -> s - r < 10 ->
  ws_body ev w =
    (Ret tt, upd w (inbox w) k1 (fr r (s + 1))
       [Obs (ESendText (token_json ev)) (fr r s);
        Obs (EAssign "send_tokens" (s + 1)) (fr r (s + 1));
        Obs ESleep0 (fr r (s + 1))]).
Proof.
  intros Hl Hk Hlt. destruct w as [rk en hb ib tk ch lo lg].
  simpl in Hl, Hk. subst lo.
  unfold ws_body. run. rewrite Hk. run.
  match goal with |- context [await_acks ?w] =>
    rewrite (await_acks_skip w r (s + 1)) by (simpl; first [reflexivity | lia])
  end.
  run. rewrite <- !app_assoc. reflexivity.
Qed.

Lemma ws_body_acked w ev r s k1 f rest :
  locals w = fr r s -> spend (peer_takes w) = Some k1 -> s - r = 10 ->
  inbox w = Text f :: rest ->
  ws_body ev w =
    (Ret tt, upd w rest k1 (fr (r + 1) (s + 1))
       [Obs (ESendText (token_json ev)) (fr r s);
        Obs (EAssign "send_tokens" (s + 1)) (fr r (s + 1));
        Obs (ERecvText f) (fr r (s + 1));
        Obs (EAssign "recv_tokens" (r + 1)) (fr (r + 1) (s + 1));
        Obs ESleep0 (fr (r + 1) (s + 1))]).
Proof.
  intros Hl Hk Hg Hi. destruct w as [rk en hb ib tk ch lo lg].
  simpl in Hl, Hk, Hi. subst lo ib. unfold ws_body. run. rewrite Hk. run.
  match goal with |- context [await_acks ?w] =>
    rewrite (await_acks_one w r (s + 1) f rest)
      by (simpl; first [reflexivity | lia])
  end.
  run. rewrite <- !app_assoc. reflexivity.
Qed.

Lemma ws_body_binary w ev r s k1 b rest :
  locals w = fr r s -> spend (peer_takes w) = Some k1 -> s - r = 10 ->
  inbox w = Binary b :: rest ->
  ws_body ev w =
    (Exc (KeyError "text"),
     upd w rest k1 (fr r (s + 1))
       [Obs (ESendText (token_json ev)) (fr r s);
        Obs (EAssign "send_tokens" (s + 1)) (fr r (s + 1));
        Obs (ERecvBytes b) (fr r (s + 1))]).
Proof.
  intros Hl Hk Hg Hi. destruct w as [rk en hb ib tk ch lo lg].
  simpl in Hl, Hk, Hi. subst lo ib. unfold ws_body. run. rewrite Hk. run.
  match goal with |- context [await_acks ?w] =>
    rewrite (await_acks_binary w r (s + 1) b rest)
      by (simpl; first [reflexivity | lia])
  end.
  run. rewrite <- !app_assoc. reflexivity.
Qed.

Lemma ws_body_stuck w ev r s k1 :
  locals w = fr r s -> spend (peer_takes w) = Some k1 -> s - r = 10 ->
  inbox w = [] ->
  ws_body ev w =
    (hangup k1,
     upd w [] k1 (fr r (s + 1))
       [Obs (ESendText (token_json ev)) (fr r s);
        Obs (EAssign "send_tokens" (s + 1)) (fr r (s + 1))]).
Proof.
  intros Hl Hk Hg Hi. destruct w as [rk en hb ib tk ch lo lg].
  simpl in Hl, Hk, Hi. subst lo ib. unfold ws_body. run. rewrite Hk. run.
  match goal with |- context [await_acks ?w] =>
    rewrite (await_acks_stuck w r (s + 1))
      by (simpl; first [reflexivity | lia])
  end.
  run. rewrite <- !app_assoc. destruct k1 as [[| m] |]; reflexivity.
Qed.

Lemma upd_upd w ib1 k1 l1 es1 ib2 k2 l2 es2 :
  upd (upd w ib1 k1 l1 es1) ib2 k2 l2 es2 = upd w ib2 k2 l2 (es1 ++ es2).
Proof. unfold upd. simpl. by rewrite app_assoc. Qed.

Lemma emit_upd e w :
  emit e w =
    (Ret tt, upd w (inbox w) (peer_takes w) (locals w) [Obs e (locals w)]).
Proof. reflexivity. Qed.

Lemma bind_ret {A B} (c : M A) (k : A -> M B) w a w' :
  c w = (Ret a, w') -> (c ≫= k) w = k a w'.
Proof. intros H. unfold mbind, M_bind. by rewrite H. Qed.

Lemma bind_stop {A B} (c : M A) (k : A -> M B) w r w' :
  c w = (r, w') -> (forall a, r <> Ret a) ->
  (c ≫= k) w =
    (match r with Ret _ => Wait | Exc e => Exc e | Wait => Wait
                | Diverged => Diverged end, w').
Proof.
  intros H Hr. unfold mbind, M_bind. rewrite H.
  destruct r; try reflexivity. by destruct (Hr a).
Qed.

(** The loop of [generate_ws] runs as [ws_run] says. *)
Lemma ws_run_for_items evs fails r s ib k res r' s' ib' k' es :
  ws_run evs fails r s ib k res r' s' ib' k' es ->
  forall w,
    locals w = fr r s -> inbox w = ib -> peer_takes w = k ->
    for_items evs fails ws_body w = (res, upd w ib' k' (fr r' s') es).
Proof.
  induction 1 as [r s ib k | e r s ib k
                 | ev rest fails r s ib k Hk
                 | ev rest fails r s ib k k1 res r' s' ib' k' es Hk Hg Hrun IH
                 | ev rest fails r s f ib k k1 res r' s' ib' k' es Hk Hg Hrun IH
                 | ev rest fails r s b ib k k1 Hk Hg
                 | ev rest fails r s k k1 Hk Hg];
    intros w Hl Hi Ht;
    try (simpl for_items;
         set (w1 := upd w (inbox w) (peer_takes w) (locals w)
                      [Obs (ENext ev) (locals w)]);
         rewrite (bind_ret _ _ w tt w1) by apply emit_upd;
         assert (Hl1 : locals w1 = fr r s) by exact Hl;
         assert (Hi1 : inbox w1 = inbox w) by reflexivity;
         assert (Hk1 : spend (peer_takes w1) = spend k)
           by (simpl; by rewrite Ht)).
  - destruct w; simpl in *; subst; reflexivity.
  - destruct w; simpl in *; subst; reflexivity.
  - rewrite Hk in Hk1.
    rewrite (bind_stop _ _ w1 _ _ (ws_body_refused w1 ev Hk1)) by discriminate.
    subst w1. by rewrite Hl, Hi, Ht.
  - rewrite Hk in Hk1.
    rewrite (bind_ret _ _ w1 tt _ (ws_body_free w1 ev r s k1 Hl1 Hk1 Hg)).
    subst w1. rewrite upd_upd.
    match goal with |- context [for_items rest fails ws_body ?w2] =>
      rewrite (IH w2 eq_refl Hi eq_refl)
    end.
    by rewrite upd_upd, Hl.
  - rewrite Hk in Hk1. rewrite Hi in Hi1.
    rewrite (bind_ret _ _ w1 tt _
               (ws_body_acked w1 ev r s k1 f ib Hl1 Hk1 Hg Hi1)).
    subst w1. rewrite upd_upd.
    match goal with |- context [for_items rest fails ws_body ?w2] =>
      rewrite (IH w2 eq_refl eq_refl eq_refl)
    end.
    by rewrite upd_upd, Hl.
  - rewrite Hk in Hk1. rewrite Hi in Hi1.
    rewrite (bind_stop _ _ w1 _ _
               (ws_body_binary w1 ev r s k1 b ib Hl1 Hk1 Hg Hi1))
      by discriminate.
    subst w1. by rewrite upd_upd, Hl.
  - rewrite Hk in Hk1. rewrite Hi in Hi1.
    rewrite (bind_stop _ _ w1 _ _ (ws_body_stuck w1 ev r s k1 Hl1 Hk1 Hg Hi1)).
    + subst w1. rewrite upd_upd, Hl. by destruct k1 as [[| m] |].
    + destruct k1 as [[| m] |]; discriminate.
Qed.

(** The loop always runs, to an end or to a point where it stays. *)
Lemma ws_run_exists evs fails : forall r s ib k,
  s - r <= 10 ->
  exists res r' s' ib' k' es,
    ws_run evs fails r s ib k res r' s' ib' k' es.
Proof.
  induction evs as [| ev rest IH]; intros r s ib k Hg.
  - destruct fails as [e |]; repeat eexists; constructor.
  - destruct (spend k) as [k1 |] eqn:Hk.
    2: { repeat eexists. by apply ws_run_refused. }
    destruct (Z.eq_dec (s - r) 10) as [Heq | Hne].
    + destruct ib as [| [f | b] ib].
      * repeat eexists. by eapply ws_run_stuck.
      * destruct (IH (r + 1) (s + 1) ib k1 ltac:(lia))
          as (res & r' & s' & ib' & k' & es & Hrun).
        repeat eexists. by eapply ws_run_acked.
      * repeat eexists. by eapply ws_run_binary.
    + destruct (IH r (s + 1) ib k1 ltac:(lia))
        as (res & r' & s' & ib' & k' & es & Hrun).
      repeat eexists. eapply ws_run_free; [exact Hk | lia | exact Hrun].
Qed.

Lemma generate_ws_sound eng text acks takes x bc res r' s' ib' k' es :
  let g := eng ProbsStream (stream_args (PStr text)) in
  ws_run (items g) (failure g) 0 0 acks takes res r' s' ib' k' es ->
  generate_ws dumps_value
      (ws_world eng (Text text :: acks) takes (BcOk x :: bc)) =
    (ws_result res k',
     World 0 eng JMalformed ib' (ws_left res k') bc (fr r' s')
       (ws_prologue text ++ es ++ ws_epilogue res k' r' s')).
Proof.
  intros g Hrun.
  set (w1 := World 0 eng JMalformed acks takes bc (fr 0 0)
               (ws_prologue text)).
  pose proof (ws_run_for_items _ _ _ _ _ _ _ _ _ _ _ _ Hrun w1
                eq_refl eq_refl eq_refl) as Hfor.
  unfold generate_ws, ws_world, for_in, probs_stream, broadcast_object_list.
  run. change (Z.eqb 0 0) with true. run.
  subst g w1. unfold ws_prologue in *. unfold stream_args, fr in *. simpl app.
  rewrite Hfor. unfold upd, ws_result, ws_left, ws_epilogue. simpl.
  destruct res as [[] | | |]; simpl; rewrite ?app_nil_r; try reflexivity.
  destruct (spend k'); simpl; rewrite ?app_nil_r; reflexivity.
Qed.

Lemma generate_ws_run eng text acks takes x bc :
  let g := eng ProbsStream (stream_args (PStr text)) in
  exists res r' s' ib' k' es,
    ws_run (items g) (failure g) 0 0 acks takes res r' s' ib' k' es /\
    generate_ws dumps_value
        (ws_world eng (Text text :: acks) takes (BcOk x :: bc)) =
      (ws_result res k',
       World 0 eng JMalformed ib' (ws_left res k') bc (fr r' s')
         (ws_prologue text ++ es ++ ws_epilogue res k' r' s')).
Proof.
  intros g.
  destruct (ws_run_exists (items g) (failure g) 0 0 acks takes
              ltac:(lia)) as (res & r' & s' & ib' & k' & es & Hrun).
  exists res, r', s', ib', k', es. split; [exact Hrun |].
  by apply generate_ws_sound.
Qed.

(** *** Facts about the runs of the streaming loop *)

Lemma snap_ok_fr e r s :
  0 <= r <= s -> s - r <= 11 -> (0 < r -> 10 < s) ->
  (quiet e = true -> s - r <= 10) ->
  snap_ok (Obs e (fr r s)).
Proof.
  intros H1 H2 H3 H4 a b Hv. simpl in Hv. unfold fr in Hv.
  injection Hv as <- <-. auto.
Qed.

Ltac snaps :=
  repeat (apply Forall_cons_2;
          [apply snap_ok_fr; simpl; first [lia | discriminate | intros; lia] |]);
  try apply Forall_nil_2.

(** Induction on a run, with the names of what each rule brings. *)
Ltac by_run H :=
  induction H as [r s ib k | e r s ib k
                 | ev rest fails r s ib k Hk
                 | ev rest fails r s ib k k1 res r' s' ib' k' es Hk Hg Hrun IH
                 | ev rest fails r s f ib k k1 res r' s' ib' k' es Hk Hg Hrun IH
                 | ev rest fails r s b ib k k1 Hk Hg
                 | ev rest fails r s k k1 Hk Hg].

Lemma ws_run_snap evs fails r s ib k res r' s' ib' k' es :
  ws_run evs fails r s ib k res r' s' ib' k' es ->
  0 <= s -> r = Z.max 0 (s - 10) ->
  Forall snap_ok es.
Proof.
  intros H. by_run H; intros Hs Hr.
  - snaps.
  - snaps.
  - snaps.
  - apply Forall_app. split; [snaps | apply IH; lia].
  - apply Forall_app. split; [snaps | apply IH; lia].
  - snaps.
  - snaps.
Qed.

Lemma spend_left k k1 n :
  spend k = Some k1 -> left_after k1 n = left_after k (S n).
Proof.
  destruct k as [[| m] |]; simpl; intros [= <-]; simpl; [f_equal; lia | done].
Qed.

Lemma left_after_0 k : left_after k 0 = k.
Proof. destruct k; simpl; [f_equal; lia | done]. Qed.

(** The counters count what they are named after, the messages of the peer
    are read in the order it sent them, and every frame sent is one of the
    messages the peer takes. *)
Lemma ws_run_counts evs fails r s ib k res r' s' ib' k' es :
  ws_run evs fails r s ib k res r' s' ib' k' es ->
  read (map what es) ++ ib' = ib /\
  r' = r + Z.of_nat (length (received (map what es))) /\
  s' = s + Z.of_nat (length (sent_frames (map what es))) /\
  k' = left_after k (length (sent_frames (map what es))).
Proof.
  intros H. by_run H; simpl.
  - rewrite left_after_0. repeat split; lia.
  - rewrite left_after_0. repeat split; lia.
  - rewrite left_after_0. repeat split; lia.
  - destruct IH as (IH1 & IH2 & IH3 & IH4).
    repeat split; [done | lia | lia |]. rewrite IH4. by apply spend_left.
  - destruct IH as (IH1 & IH2 & IH3 & IH4).
    repeat split; [by rewrite IH1 | lia | lia |].
    rewrite IH4. by apply spend_left.
  - repeat split; try lia.
    rewrite <- (spend_left _ _ 0 Hk). by rewrite left_after_0.
  - repeat split; try lia.
    rewrite <- (spend_left _ _ 0 Hk). by rewrite left_after_0.
Qed.

(** The text frames read are those the counter counts, and they come ahead
    of any binary frame. *)
Lemma ws_run_received evs fails r s ib k res r' s' ib' k' es :
  ws_run evs fails r s ib k res r' s' ib' k' es ->
  received (map what es) `prefix_of` leading_texts ib.
Proof.
  intros H. by_run H; simpl; try apply prefix_nil; try done.
  by apply prefix_cons.
Qed.

(** Every frame sent is the frame of an event pulled from the engine, in
    the order pulled, and the events pulled are the first ones the engine
    has; at most the last event pulled was not sent. *)
Lemma ws_run_sent evs fails r s ib k res r' s' ib' k' es :
  ws_run evs fails r s ib k res r' s' ib' k' es ->
  pulled (map what es) `prefix_of` evs /\
  sent_frames (map what es) `prefix_of`
    map token_json (pulled (map what es)) /\
  (length (pulled (map what es)) <= S (length (sent_frames (map what es))))%nat /\
  (res <> Exc WebSocketDisconnect \/ spend k' <> None ->
   sent_frames (map what es) = map token_json (pulled (map what es))).
Proof.
  intros H. by_run H; simpl.
  - split_and!; [apply prefix_nil | done | lia | done].
  - split_and!; [apply prefix_nil | done | lia | done].
  - split_and!; [apply prefix_cons, prefix_nil | apply prefix_nil | lia |].
    intros [Hn | Hn]; [done | by destruct Hn].
  - destruct IH as (IH1 & IH2 & IH3 & IH4).
    split_and!; [by apply prefix_cons | by apply prefix_cons | lia |].
    intros Hn. by rewrite (IH4 Hn).
  - destruct IH as (IH1 & IH2 & IH3 & IH4).
    split_and!; [by apply prefix_cons | by apply prefix_cons | lia |].
    intros Hn. by rewrite (IH4 Hn).
  - split_and!; [apply prefix_cons, prefix_nil | done | lia | done].
  - split_and!; [apply prefix_cons, prefix_nil | done | lia | done].
Qed.


Lemma spend_takes k k1 n :
  spend k = Some k1 -> takes_at_least k (S n) -> takes_at_least k1 n.
Proof.
  destruct k as [[| m] |]; simpl; intros [= <-]; simpl; [lia | done].
Qed.

Lemma spend_none k n : spend k = None -> ~ takes_at_least k (S n).
Proof. destruct k as [[| m] |]; simpl; [lia | done | done]. Qed.

(** With enough text frames pending and a peer that takes every frame, the
    loop reaches the end of the engine's output. *)
Lemma ws_run_enough evs fails r s ib k res r' s' ib' k' es :
  ws_run evs fails r s ib k res r' s' ib' k' es ->
  0 <= s -> r = Z.max 0 (s - 10) ->
  Z.max 0 (s + Z.of_nat (length evs) - 10) - r
    <= Z.of_nat (length (leading_texts ib)) ->
  takes_at_least k (length evs) ->
  res = completion fails /\ pulled (map what es) = evs /\
  s' = s + Z.of_nat (length evs) /\ r' = Z.max 0 (s' - 10) /\
  last (map what es) = Some (finish fails).
Proof.
  intros H. by_run H; simpl length; intros Hs Hr Hn Ht.
  - repeat split; simpl; lia.
  - repeat split; simpl; lia.
  - by destruct (spend_none _ _ Hk Ht).
  - destruct IH as (-> & IH2 & -> & -> & IH5);
      [lia | lia | lia | by eapply spend_takes |].
    simpl map. rewrite !last_cons, IH5. simpl. rewrite IH2.
    repeat split; lia.
  - destruct IH as (-> & IH2 & -> & -> & IH5);
      [lia | lia | simpl in Hn; lia | by eapply spend_takes |].
    simpl map. rewrite !last_cons, IH5. simpl. rewrite IH2.
    repeat split; lia.
  - simpl in Hn. lia.
  - simpl in Hn. lia.
Qed.

Lemma ws_run_final evs fails r s ib k res r' s' ib' k' es :
  ws_run evs fails r s ib k res r' s' ib' k' es ->
  0 <= s -> r = Z.max 0 (s - 10) -> res = Ret tt ->
  0 <= s' /\ r' = Z.max 0 (s' - 10).
Proof.
  intros H. by_run H; intros Hs Hr Hres; try done.
  - apply IH; [lia | lia | done].
  - apply IH; [lia | lia | done].
  - by destruct k1 as [[| m] |].
Qed.

Lemma ws_run_gap_end evs fails r s ib k res r' s' ib' k' es :
  ws_run evs fails r s ib k res r' s' ib' k' es ->
  0 <= s -> r = Z.max 0 (s - 10) ->
  s' - r' <= 11.
Proof.
  intros H. by_run H; intros Hs Hr; try lia; apply IH; lia.
Qed.

(** How far the loop gets: it stops sending when the peer takes no more,
    or when eleven frames are out beyond the text frames the peer has
    pending ahead of any binary one. *)
Lemma ws_run_sent_length evs fails r s ib k res r' s' ib' k' es :
  ws_run evs fails r s ib k res r' s' ib' k' es ->
  s - r <= 10 ->
  length (sent_frames (map what es)) =
    taken k (Nat.min (length evs)
               (Z.to_nat (Z.of_nat (length (leading_texts ib)) + 11 - (s - r)))) /\
  length (pulled (map what es)) =
    taken (S <$> k)
      (Nat.min (length evs)
         (Z.to_nat (Z.of_nat (length (leading_texts ib)) + 11 - (s - r)))).
Proof.
  intros H.
  by_run H; intros Hd; try (destruct (IH ltac:(lia)) as [IH1 IH2]);
    simpl leading_texts; simpl length; rewrite ?IH1, ?IH2;
    destruct k as [[| m] |]; cbv [spend] in *; simplify_eq;
    cbv [taken fmap option_fmap option_map]; lia.
Qed.

Lemma prefix_eq_take {A} (l1 l2 : list A) :
  l1 `prefix_of` l2 -> l1 = take (length l1) l2.
Proof. intros [k ->]. by rewrite take_app_length. Qed.

Lemma ws_run_events evs fails r s ib k res r' s' ib' k' es :
  ws_run evs fails r s ib k res r' s' ib' k' es ->
  Forall (fun e => loop_event e = true) (map what es).
Proof.
  induction 1; simpl; repeat (apply Forall_cons_2; [reflexivity |]);
    first [assumption | apply Forall_nil_2].
Qed.

Lemma omap_none {A B} (f : A -> option B) (P : A -> Prop) l :
  Forall P l -> (forall x, P x -> f x = None) -> omap f l = [].
Proof.
  intros HP Hf. induction HP as [| x l Hx _ IH]; [done |].
  simpl. by rewrite (Hf x Hx).
Qed.

(** When the text frames run short of what the output needs and the peer
    takes every frame sent, the loop ends at a read with eleven frames out:
    suspended or woken by the disconnect when no message is left, with
    [KeyError] when the next one is a binary frame. *)
Lemma ws_run_short evs fails r s ib k res r' s' ib' k' es :
  ws_run evs fails r s ib k res r' s' ib' k' es ->
  0 <= s -> r = Z.max 0 (s - 10) ->
  Z.of_nat (length (leading_texts ib))
    < Z.max 0 (s + Z.of_nat (length evs) - 10) - r ->
  takes_at_least k
    (Z.to_nat (Z.of_nat (length (leading_texts ib)) + 11 - (s - r))) ->
  s' - r' = 11 /\ (EStop ∉ map what es) /\
  received (map what es) = leading_texts ib /\
  match drop (length (leading_texts ib)) ib with
  | [] => res = hangup k' /\ ib' = []
  | Binary b :: rest => res = Exc (KeyError "text") /\ ib' = rest
  | Text _ :: _ => False
  end.
Proof.
  intros H. by_run H; simpl length; intros Hs Hr Hn Ht.
  - lia.
  - lia.
  - destruct (spend_none _ (Z.to_nat
        (Z.of_nat (length (leading_texts ib)) + 11 - (s - r)) - 1) Hk).
    replace (S _) with
      (Z.to_nat (Z.of_nat (length (leading_texts ib)) + 11 - (s - r)))
      by lia.
    exact Ht.
  - destruct IH as (Hgap & Hstop & Hrecv & Hend); [lia | lia | lia | |].
    { eapply spend_takes; [exact Hk |].
      replace (S _) with
        (Z.to_nat (Z.of_nat (length (leading_texts ib)) + 11 - (s - r)))
        by lia.
      exact Ht. }
    repeat split; [exact Hgap | | exact Hrecv | exact Hend].
    simpl. intros Hin.
    repeat (apply elem_of_cons in Hin as [Hin | Hin]; [discriminate |]).
    by apply Hstop.
  - simpl in Hn, Ht.
    destruct IH as (Hgap & Hstop & Hrecv & Hend); [lia | lia | lia | |].
    { eapply spend_takes; [exact Hk |].
      replace (S _) with
        (Z.to_nat (Z.of_nat (S (length (leading_texts ib))) + 11 - (s - r)))
        by lia.
      exact Ht. }
    repeat split; [exact Hgap | | simpl; by rewrite Hrecv | exact Hend].
    simpl. intros Hin.
    repeat (apply elem_of_cons in Hin as [Hin | Hin]; [discriminate |]).
    by apply Hstop.
  - repeat split; [lia |]. simpl. intros Hin.
    repeat (apply elem_of_cons in Hin as [Hin | Hin]; [discriminate |]).
    by apply elem_of_nil in Hin.
  - repeat split; [lia |]. simpl. intros Hin.
    repeat (apply elem_of_cons in Hin as [Hin | Hin]; [discriminate |]).
    by apply elem_of_nil in Hin.
Qed.

(** When the peer takes fewer frames than the loop would send, the loop
    ends with the disconnect at the send that follows the last one taken. *)
Lemma ws_run_departed evs fails r s ib k res r' s' ib' k' es (m : nat) :
  ws_run evs fails r s ib k res r' s' ib' k' es ->
  s - r <= 10 ->
  k = Some m ->
  (m < Nat.min (length evs)
         (Z.to_nat (Z.of_nat (length (leading_texts ib)) + 11 - (s - r))))%nat ->
  res = Exc WebSocketDisconnect /\ k' = Some 0%nat /\
  (EStop ∉ map what es) /\
  (forall e, ERaise e ∉ map what es).
Proof.
  intros H. revert m.
  by_run H; simpl length; intros m Hd -> Hm.
  - lia.
  - lia.
  - destruct m; [| done]. repeat split; [| intros e]; simpl; intros Hin;
      (apply elem_of_cons in Hin as [Hin | Hin]; [discriminate |]);
      by apply elem_of_nil in Hin.
  - destruct m as [| m]; [done |]. simpl in Hk. injection Hk as <-.
    destruct (IH m ltac:(lia) eq_refl ltac:(lia)) as (-> & -> & Hs & Hr).
    repeat split; [| intros e]; simpl; intros Hin;
      repeat (apply elem_of_cons in Hin as [Hin | Hin]; [discriminate |]);
      [by apply Hs | by apply (Hr e)].
  - destruct m as [| m]; [done |]. simpl in Hk. injection Hk as <-.
    simpl leading_texts in Hm. simpl length in Hm.
    destruct (IH m ltac:(lia) eq_refl ltac:(lia)) as (-> & -> & Hs & Hr).
    repeat split; [| intros e]; simpl; intros Hin;
      repeat (apply elem_of_cons in Hin as [Hin | Hin]; [discriminate |]);
      [by apply Hs | by apply (Hr e)].
  - destruct m as [| m]; [done |].
    simpl leading_texts in Hm. simpl length in Hm. lia.
  - destruct m as [| m]; [done |].
    simpl leading_texts in Hm. simpl length in Hm. lia.
Qed.

(** The content of the messages of the peer is not looked at: the loop runs
    alike on messages that are, one by one, of the same kind. *)
Lemma ws_run_same_kind evs fails r s ib1 k res r' s' ib1' k' es1 ib2 :
  ws_run evs fails r s ib1 k res r' s' ib1' k' es1 ->
  Forall2 same_kind ib1 ib2 ->
  exists ib2' es2,
    ws_run evs fails r s ib2 k res r' s' ib2' k' es2 /\
    Forall2 same_kind ib1' ib2' /\
    sent_frames (map what es1) = sent_frames (map what es2) /\
    pulled (map what es1) = pulled (map what es2).
Proof.
  intros H. revert ib2.
  by_run H; intros ib2 Hk2.
  - eexists _, _. split; [constructor | done].
  - eexists _, _. split; [constructor | done].
  - eexists _, _. split; [by apply ws_run_refused | done].
  - destruct (IH ib2 Hk2) as (ib2' & es2 & Hrun2 & Hk' & Hs & Hp).
    eexists _, _. split; [by eapply ws_run_free |].
    split; [exact Hk' |]. simpl. by rewrite Hs, Hp.
  - inversion Hk2 as [| f1 [f2 | b2] l1 l2 Hf Hl]; subst; [| done].
    destruct (IH l2 Hl) as (ib2' & es2 & Hrun2 & Hk' & Hs & Hp).
    eexists _, _. split; [by eapply ws_run_acked |].
    split; [exact Hk' |]. simpl. by rewrite Hs, Hp.
  - inversion Hk2 as [| f1 [f2 | b2] l1 l2 Hf Hl]; subst; [done |].
    eexists _, _. split; [by eapply ws_run_binary |]. done.
  - inversion Hk2; subst.
    eexists _, _. split; [by eapply ws_run_stuck |]. done.
Qed.

(** *** The runs of the WebSocket endpoint *)

Lemma generate_ws_no_prompt eng takes bc :
  generate_ws dumps_value (ws_world eng [] takes bc) =
    (hangup takes,
     World 0 eng JMalformed [] takes bc (Frame None None)
       [Obs EAccept (Frame None None)]).
Proof.
  unfold generate_ws, ws_world. run. by destruct takes as [[| m] |].
Qed.

Lemma generate_ws_binary_prompt eng b rest takes bc :
  generate_ws dumps_value (ws_world eng (Binary b :: rest) takes bc) =
    (Exc (KeyError "text"),
     World 0 eng JMalformed rest takes bc (Frame None None)
       [Obs EAccept (Frame None None);
        Obs (ERecvBytes b) (Frame None None)]).
Proof. reflexivity. Qed.

Lemma generate_ws_no_peer eng text acks takes :
  generate_ws dumps_value (ws_world eng (Text text :: acks) takes []) =
    (Wait,
     World 0 eng JMalformed acks takes [] (Frame None None)
       [Obs EAccept (Frame None None);
        Obs (ERecvText text) (Frame None None)]).
Proof. reflexivity. Qed.

Lemma generate_ws_bc_err eng text acks takes e bc :
  generate_ws dumps_value
      (ws_world eng (Text text :: acks) takes (BcErr e :: bc)) =
    (Exc e,
     World 0 eng JMalformed acks takes bc (Frame None None)
       [Obs EAccept (Frame None None);
        Obs (ERecvText text) (Frame None None);
        Obs (EBroadcastFail e) (Frame None None)]).
Proof. reflexivity. Qed.


(** The loop variant of [await_acks] never runs out. *)
Lemma ws_run_total evs fails r s ib k res r' s' ib' k' es :
  ws_run evs fails r s ib k res r' s' ib' k' es -> res <> Diverged.
Proof.
  induction 1; try done.
  match goal with |- hangup ?k <> _ => by destruct k as [[| m] |] end.
Qed.

Lemma ws_result_total res k : res <> Diverged -> ws_result res k <> Diverged.
Proof.
  destruct res as [[] | | |]; simpl; try done. by destruct (spend k).
Qed.

Lemma generate_ws_total eng frames takes bc :
  fst (generate_ws dumps_value (ws_world eng frames takes bc))
    <> Diverged.
Proof.
  destruct frames as [| [text | b] acks].
  { rewrite generate_ws_no_prompt. by destruct takes as [[| m] |]. }
  2: { by rewrite generate_ws_binary_prompt. }
  destruct bc as [| [x | e] bc].
  { by rewrite generate_ws_no_peer. }
  2: { by rewrite generate_ws_bc_err. }
  destruct (generate_ws_run eng text acks takes x bc)
    as (res & r' & s' & ib' & k' & es & Hrun & ->).
  apply ws_result_total.
  apply (ws_run_total _ _ _ _ _ _ _ _ _ _ _ _ Hrun).
Qed.

Lemma snap_ok_unbound e r :
  snap_ok (Obs e (Frame r None)).
Proof. intros a b Hv. discriminate Hv. Qed.

(** The bookkeeping of [generate_ws] at every point of every run. *)
Lemma generate_ws_snap eng frames takes bc :
  Forall snap_ok
    (log (snd (generate_ws dumps_value (ws_world eng frames takes bc)))).
Proof.
  destruct frames as [| [text | b] acks].
  { rewrite generate_ws_no_prompt. simpl.
    repeat (apply Forall_cons_2; [apply snap_ok_unbound |]). constructor. }
  2: { rewrite generate_ws_binary_prompt. simpl.
       repeat (apply Forall_cons_2; [apply snap_ok_unbound |]). constructor. }
  destruct bc as [| [x | e] bc].
  { rewrite generate_ws_no_peer. simpl.
    repeat (apply Forall_cons_2; [apply snap_ok_unbound |]). constructor. }
  2: { rewrite generate_ws_bc_err. simpl.
       repeat (apply Forall_cons_2; [apply snap_ok_unbound |]). constructor. }
  destruct (generate_ws_run eng text acks takes x bc)
    as (res & r' & s' & ib' & k' & es & Hrun & ->).
  cbn [snd log]. rewrite !Forall_app. split; [| split].
  - unfold ws_prologue.
    repeat (apply Forall_cons_2; [apply snap_ok_unbound |]). snaps.
  - apply (ws_run_snap _ _ _ _ _ _ _ _ _ _ _ _ Hrun); lia.
  - destruct res as [[] | | |]; simpl; try constructor.
    destruct (spend k'); constructor; [| constructor].
    destruct (ws_run_final _ _ _ _ _ _ _ _ _ _ _ _ Hrun) as [Hs' Hr'];
      [lia | lia | done |].
    apply snap_ok_fr; simpl; lia.
Qed.

(** The steps after the loop send nothing, pull nothing and read nothing. *)
Lemma ws_epilogue_silent res k r s :
  sent_frames (map what (ws_epilogue res k r s)) = [] /\
  pulled (map what (ws_epilogue res k r s)) = [] /\
  received (map what (ws_epilogue res k r s)) = [] /\
  read (map what (ws_epilogue res k r s)) = [] /\
  broadcasts (map what (ws_epilogue res k r s)) = [] /\
  engine_calls (map what (ws_epilogue res k r s)) = [].
Proof.
  destruct res as [[] | | |]; simpl; try done. by destruct (spend k).
Qed.

(** *** A round of the WebSocket endpoint, seen through its loop *)

Lemma leading_texts_length l : (length (leading_texts l) <= length l)%nat.
Proof. induction l as [| [s | b] l IH]; simpl; lia. Qed.

Lemma leading_texts_map l : leading_texts (map Text l) = l.
Proof. induction l as [| s l IH]; simpl; [done | by rewrite IH]. Qed.

Lemma leading_texts_binary l b rest :
  leading_texts (map Text l ++ Binary b :: rest) = l.
Proof. induction l as [| s l IH]; simpl; [done | by rewrite IH]. Qed.

Lemma prefix_map {A B} (f : A -> B) (l1 l2 : list A) :
  l1 `prefix_of` l2 -> map f l1 `prefix_of` map f l2.
Proof. intros [k ->]. rewrite map_app. by eexists. Qed.

(** The frames sent are the frames of the first events of the engine. *)
Lemma ws_run_sent_take evs fails r s ib k res r' s' ib' k' es :
  ws_run evs fails r s ib k res r' s' ib' k' es ->
  sent_frames (map what es) =
    take (length (sent_frames (map what es))) (map token_json evs) /\
  pulled (map what es) = take (length (pulled (map what es))) evs.
Proof.
  intros Hrun.
  destruct (ws_run_sent _ _ _ _ _ _ _ _ _ _ _ _ Hrun) as (Hp & Hs & _).
  split; apply prefix_eq_take; [| exact Hp].
  etrans; [exact Hs |]. by apply prefix_map.
Qed.

Lemma taken_le k n : (taken k n <= n)%nat.
Proof. destruct k; simpl; lia. Qed.

Lemma taken_enough k n : takes_at_least k n -> taken k n = n.
Proof. destruct k; simpl; [lia | done]. Qed.

Lemma takes_at_least_le k n m :
  takes_at_least k n -> (m <= n)%nat -> takes_at_least k m.
Proof. destruct k; simpl; [lia | done]. Qed.


(** A peer that takes one more message than [n] is there for a message
    after [n] of them. *)
Lemma spend_left_after k n :
  takes_at_least k (S n) -> exists k1, spend (left_after k n) = Some k1.
Proof.
  destruct k as [m |]; simpl; [| eauto]. intros Hm.
  destruct (m - n)%nat as [| j] eqn:Hj; [lia | eauto].
Qed.


Lemma ws_epilogue_close res k r s :
  EClose ∈ map what (ws_epilogue res k r s) -> ws_result res k = Ret tt.
Proof.
  destruct res as [[] | | |]; simpl; try (by intros ?%elem_of_nil).
  destruct (spend k); [done | by intros ?%elem_of_nil].
Qed.

Lemma generate_ws_view eng text acks takes x bc :
  let g := eng ProbsStream (stream_args (PStr text)) in
  let rw := generate_ws dumps_value
              (ws_world eng (Text text :: acks) takes (BcOk x :: bc)) in
  exists res r' s' ib' k' es,
    ws_run (items g) (failure g) 0 0 acks takes res r' s' ib' k' es /\
    fst rw = ws_result res k' /\
    inbox (snd rw) = ib' /\
    locals (snd rw) = fr r' s' /\
    trace (snd rw) =
      map what (ws_prologue text) ++ map what es ++
      map what (ws_epilogue res k' r' s') /\
    sent_frames (trace (snd rw)) = sent_frames (map what es) /\
    pulled (trace (snd rw)) = pulled (map what es) /\
    received (trace (snd rw)) = text :: received (map what es) /\
    read (trace (snd rw)) = Text text :: read (map what es).
Proof.
  intros g rw. subst rw.
  destruct (generate_ws_run eng text acks takes x bc)
    as (res & r' & s' & ib' & k' & es & Hrun & ->).
  exists res, r', s', ib', k', es.
  destruct (ws_epilogue_silent res k' r' s') as (Hs & Hp & Hr & Hd & _).
  unfold trace. cbn [fst snd inbox locals log]. rewrite !map_app.
  unfold sent_frames, pulled, received, read in *.
  rewrite !omap_app, Hs, Hp, Hr, Hd, !app_nil_r.
  split_and!; done.
Qed.

(** *** The streamed HTTP response *)

Lemma yield_sleep_upd d w :
  (yield_data d;; sleep0) w =
    (Ret tt, upd w (inbox w) (peer_takes w) (locals w)
               (stamp (locals w) [EYield d; ESleep0])).
Proof. destruct w. run. simpl. rewrite <- app_assoc. reflexivity. Qed.

Lemma for_items_sse evs fails : forall w,
  for_items evs fails (fun ev => yield_data (token_json ev);; sleep0) w =
    (completion fails,
     upd w (inbox w) (peer_takes w) (locals w)
       (stamp (locals w) (sse_steps evs ++ [finish fails]))).
Proof.
  induction evs as [| ev rest IH]; intros w.
  - destruct fails; destruct w; reflexivity.
  - simpl for_items.
    rewrite (bind_ret _ _ w tt _ (emit_upd _ w)).
    rewrite (bind_ret _ _ _ tt _ (yield_sleep_upd _ _)).
    rewrite IH, !upd_upd. destruct w; reflexivity.
Qed.

Lemma serve_generate_run eng o text x bc :
  o !! "text" = Some text ->
  let g := eng ProbsStream (stream_args text) in
  serve_generate dumps_value (http_world eng (JObject o) (BcOk x :: bc)) =
    (match failure g with Some e => Exc e | None => Ret tt end,
     World 0 eng (JObject o) [] None bc (Frame None None)
       (stamp (Frame None None)
          (sse_prologue text ++ sse_steps (items g) ++ [finish (failure g)]
           ++ match failure g with Some _ => [] | None => [EYield eos] end))).
Proof.
  intros Ho g.
  unfold serve_generate, generate, generate_stream, http_world, for_in,
    probs_stream, broadcast_object_list, request_json, getitem.
  run. rewrite Ho. run. change (Z.eqb 0 0) with true. run.
  fold (stream_args text). fold g.
  rewrite for_items_sse. unfold completion, upd, stamp. simpl.
  destruct (failure g); simpl.
  - rewrite !map_app. reflexivity.
  - rewrite !map_app, <- !app_assoc. reflexivity.
Qed.

End Runs.

(** ** Backpressure on the WebSocket transport *)

Lemma gap_fr f g :
  gap f = Some g -> exists r s, f = fr r s /\ g = s - r.
Proof.
  destruct f as [[r |] [s |]]; unfold gap; simpl; intros [= <-]; eauto.
Qed.

(** C2, the claim as stated fails: with eleven events and a client that
    sends no acknowledgment, right after the eleventh send the handler has
    [send_tokens - recv_tokens = 11]. *)
Lemma ws_gap_reaches_11 :
  let w' := snd (generate_ws example_dumps
                   (ws_world (counting_engine 11) [Text "Hello"] None
                      [BcOk []])) in
  exists o g, o ∈ log w' /\ gap (vars o) = Some g /\ 10 < g.
Proof.
  exists (Obs (EAssign "send_tokens" 11) (fr 0 11)), 11.
  split; [| split; [reflexivity | lia]].
  apply list_elem_of_lookup. exists 49%nat. vm_compute. reflexivity.
Qed.

(** C2, amended: at every point of every run of [generate_ws] the gap
    [send_tokens - recv_tokens] is at most 11, and it is at most 10 whenever
    the handler pulls the next event, sends a frame, yields to the scheduler
    or closes; the handler never has more than eleven frames out beyond the
    acknowledgments the client has sent. *)
Theorem ws_gap_bounded dumps_value eng frames takes bc :
  let w' := snd (generate_ws dumps_value
                   (ws_world eng frames takes bc)) in
  Forall (fun o => forall g, gap (vars o) = Some g ->
            g <= 11 /\ (quiet (what o) = true -> g <= 10)) (log w') /\
  Z.of_nat (length (sent_frames (trace w')))
    <= 11 + Z.of_nat (length (tail frames)).
Proof.
  intros w'. split.
  - eapply Forall_impl; [apply generate_ws_snap |].
    intros o Hok g Hg. apply gap_fr in Hg as (r & s & Hv & ->).
    destruct (Hok r s) as (_ & H11 & _ & H10).
    { destruct o; simpl in *; by subst. }
    split; [lia | exact H10].
  - subst w'. destruct frames as [| [text | b] acks].
    { rewrite generate_ws_no_prompt. simpl. lia. }
    2: { rewrite generate_ws_binary_prompt. simpl. lia. }
    destruct bc as [| [x | e] bc].
    { rewrite generate_ws_no_peer. simpl. lia. }
    2: { rewrite generate_ws_bc_err. simpl. lia. }
    destruct (generate_ws_view dumps_value eng text acks takes x bc)
      as (res & r' & s' & ib' & k' & es & Hrun & _ & _ & _ & _ & Hs & _).
    cbv zeta in Hs. rewrite Hs. cbn [tail].
    destruct (ws_run_sent_length _ _ _ _ _ _ _ _ _ _ _ _ _ Hrun)
      as [Hlen _]; [lia |].
    rewrite Hlen.
    pose proof (leading_texts_length acks).
    match goal with |- context [taken takes ?n] =>
      pose proof (taken_le takes n)
    end.
    lia.
Qed.

(** ** No acknowledgment is needed for short streams *)



(** ** The streamed HTTP response *)

Lemma what_stamp f t : map what (stamp f t) = t.
Proof.
  unfold stamp. rewrite map_map. simpl. apply map_id.
Qed.

Lemma yielded_sse_steps dumps_value evs :
  yielded (sse_steps dumps_value evs) = map (token_json dumps_value) evs.
Proof.
  induction evs as [| ev rest IH]; [done |].
  simpl. by rewrite <- IH.
Qed.



Lemma yielded_serve_generate dumps_value eng o text x bc :
  o !! "text" = Some text ->
  let g := eng ProbsStream (stream_args text) in
  yielded (trace (snd (serve_generate dumps_value
                         (http_world eng (JObject o) (BcOk x :: bc))))) =
    map (token_json dumps_value) (items g) ++
    match failure g with Some _ => [] | None => [eos] end.
Proof.
  intros Ho g. rewrite (serve_generate_run dumps_value eng o text x bc Ho).
  unfold trace. cbn [snd log]. rewrite what_stamp. fold g.
  unfold yielded. rewrite !omap_app.
  fold (yielded (sse_steps dumps_value (items g))).
  rewrite yielded_sse_steps. by destruct (failure g).
Qed.


(** ** Delivery of the token events *)




(** ** Failures of the engine on the leader *)


(** ** The follower loop *)

Lemma overwrite_4 l :
  exists c0 c1 c2 c3, overwrite (replicate 4 PNone) l = [c0; c1; c2; c3].
Proof.
  unfold overwrite. simpl.
  destruct l as [| a [| b [| c [| d l]]]]; simpl; rewrite ?drop_nil; eauto.
Qed.

Lemma follower_body_wait w :
  chan w = [] -> follower_body w = (Wait, w).
Proof.
  intros Hc. destruct w as [rk en hb ib tk ch lo lg]. simpl in Hc. subst ch.
  reflexivity.
Qed.

Lemma follower_body_step w b c :
  rank w <> 0 -> chan w = b :: c ->
  follower_body w =
    (Ret tt,
     World (rank w) (engine w) (http_body w) (inbox w)
       (peer_takes w) c (locals w)
       (log w ++ stamp (locals w) (follower_events (engine w) b))).
Proof.
  intros Hr Hc. destruct w as [rk en hb ib tk ch lo lg]. simpl in Hr, Hc.
  subst ch. unfold follower_body, broadcast_object_list, generator_generate.
  run. destruct b as [l | e]; [| reflexivity].
  run. destruct (Z.eqb_spec rk 0) as [-> | _]; [done |].
  run. unfold follower_events, config_args. cbv zeta.
  destruct (overwrite_4 l) as (c0 & c1 & c2 & c3 & ->).
  unfold index. simpl. run.
  destruct (failure _); simpl; rewrite <- !app_assoc; reflexivity.
Qed.

(** The first [n] iterations of the loop consume the first [n] outcomes of
    the collective, whatever they are, and the loop is then still running:
    waiting for the next broadcast, or about to call for it. *)
Lemma follower_loop_run n : forall w,
  rank w <> 0 ->
  follower_loop n w =
    (if decide (n <= length (chan w))%nat then Ret tt else Wait,
     World (rank w) (engine w) (http_body w) (inbox w)
       (peer_takes w) (drop n (chan w)) (locals w)
       (log w ++ stamp (locals w)
                   (flat_map (follower_events (engine w)) (take n (chan w))))).
Proof.
  induction n as [| n IH]; intros w Hr.
  - destruct w; simpl. rewrite app_nil_r. reflexivity.
  - simpl follower_loop. destruct (chan w) as [| b c] eqn:Hc.
    + rewrite (bind_stop _ _ _ _ _ (follower_body_wait w Hc)) by discriminate.
      destruct w; simpl in *; subst. rewrite app_nil_r. reflexivity.
    + rewrite (bind_ret _ _ _ _ _ (follower_body_step w b c Hr Hc)).
      rewrite IH by exact Hr. simpl.
      unfold stamp. rewrite map_app, app_assoc.
      repeat case_decide; try lia; reflexivity.
Qed.

Lemma follower_body_run rk eng b c :
  rk <> 0 ->
  follower_body (follower_world rk eng (b :: c)) =
    (Ret tt,
     World rk eng JMalformed [] None c (Frame None None)
       (stamp (Frame None None) (follower_events eng b))).
Proof.
  intros Hr.
  by rewrite (follower_body_step (follower_world rk eng (b :: c)) b c).
Qed.

(** C4, the claim as stated fails: a follower whose engine call raises
    returns to the head of its loop having printed nothing. *)
Lemma follower_failure_unrecorded :
  let cmd := [PStr "Hello"; PInt 100028; PFloat (Dec 7 1); PInt 1] in
  let rw := follower_loop 1
              (follower_world 1 (failing_engine 0 (RuntimeError "CUDA error"))
                 [BcOk cmd]) in
  fst rw = Ret tt /\
  trace (snd rw) =
    [EBroadcastRecv cmd; ECall Generate (stream_args (PStr "Hello"));
     ERaise (RuntimeError "CUDA error")] /\
  printed (trace (snd rw)) = [].
Proof. vm_compute. repeat split. Qed.

(** C4, amended: when a follower's engine call raises, the iteration
    catches the failure, records nothing about it or about the Command, and
    ends normally, so that the loop goes on to wait for the next
    broadcast. *)
Theorem follower_failure_swallowed rk eng l c e :
  rk <> 0 ->
  let config := overwrite (replicate 4 PNone) l in
  failure (eng Generate (config_args config)) = Some e ->
  let rw := follower_body (follower_world rk eng (BcOk l :: c)) in
  fst rw = Ret tt /\
  trace (snd rw) =
    [EBroadcastRecv config; ECall Generate (config_args config); ERaise e] /\
  printed (trace (snd rw)) = [] /\
  chan (snd rw) = c.
Proof.
  intros Hr config Hf rw. subst rw.
  rewrite (follower_body_run rk eng (BcOk l) c Hr).
  unfold trace. cbn [fst snd log chan]. rewrite what_stamp.
  unfold follower_events. fold config. rewrite Hf. repeat split.
Qed.

(** C8, the claim as stated fails: a follower whose broadcast call raises
    calls [broadcast_object_list] again and runs the next round. *)
Lemma follower_survives_broadcast_failure :
  let cmd := [PStr "Hello"; PInt 100028; PFloat (Dec 7 1); PInt 1] in
  let rw := follower_loop 2
              (follower_world 1 (counting_engine 3)
                 [BcErr (RuntimeError "NCCL communicator was aborted");
                  BcOk cmd]) in
  fst rw = Ret tt /\
  trace (snd rw) =
    [EBroadcastFail (RuntimeError "NCCL communicator was aborted");
     EBroadcastRecv cmd; ECall Generate (stream_args (PStr "Hello"))].
Proof. vm_compute. repeat split. Qed.

Lemma serve_generate_bc_err dumps_value eng o text e bc :
  o !! "text" = Some text ->
  serve_generate dumps_value (http_world eng (JObject o) (BcErr e :: bc)) =
    (Exc e,
     World 0 eng (JObject o) [] None bc (Frame None None)
       (stamp (Frame None None) [EReqJson; EBroadcastFail e])).
Proof.
  intros Ho.
  unfold serve_generate, generate, http_world, broadcast_object_list,
    request_json, getitem.
  run. rewrite Ho. reflexivity.
Qed.

(** C8, amended: a failure of the collective does not stop a follower:
    the first [n] iterations of its loop consume the first [n] outcomes of
    the collective, failures included, never end with an exception, and
    leave the loop calling for the next broadcast. On the leader the
    failure ends the handler of that request with the exception, before
    any engine call. *)
Theorem broadcast_failure_not_fatal dumps_value :
  (forall rk eng bc n,
     rk <> 0 ->
     let rw := follower_loop n (follower_world rk eng bc) in
     fst rw = (if decide (n <= length bc)%nat then Ret tt else Wait) /\
     chan (snd rw) = drop n bc /\
     trace (snd rw) = flat_map (follower_events eng) (take n bc)) /\
  (forall eng text acks takes e bc,
     let rw := generate_ws dumps_value
                 (ws_world eng (Text text :: acks) takes
                    (BcErr e :: bc)) in
     fst rw = Exc e /\ engine_calls (trace (snd rw)) = []) /\
  (forall eng o text e bc,
     o !! "text" = Some text ->
     let rw := serve_generate dumps_value
                 (http_world eng (JObject o) (BcErr e :: bc)) in
     fst rw = Exc e /\ engine_calls (trace (snd rw)) = []).
Proof.
  split; [| split].
  - intros rk eng bc n Hr rw. subst rw.
    rewrite (follower_loop_run n (follower_world rk eng bc) Hr).
    unfold trace. cbn [fst snd log chan follower_world].
    change ([] ++ ?l) with l. by rewrite what_stamp.
  - intros eng text acks takes e bc rw. subst rw.
    rewrite generate_ws_bc_err. split; reflexivity.
  - intros eng o text e bc Ho rw. subst rw.
    rewrite (serve_generate_bc_err dumps_value eng o text e bc Ho).
    split; reflexivity.
Qed.

(** ** Dispatch: what is broadcast and what the engines are called with *)







(** ** Concurrent connections on the leader *)

Lemma coop_project cur t1 t2 tr :
  coop cur t1 t2 tr ->
  forall c, project c tr = task_of c t1 t2.
Proof.
  induction 1 as [| cur e t1 t2 tr Hc Hco IH | cur e t1 t2 tr Hc Hco IH];
    intros c.
  - by destruct c.
  - pose proof (IH c) as IHc. unfold project in *. destruct c; simpl in *.
    + f_equal. exact IHc.
    + exact IHc.
  - pose proof (IH c) as IHc. unfold project in *. destruct c; simpl in *.
    + exact IHc.
    + f_equal. exact IHc.
Qed.

(** The task that holds the event loop is the one that runs next. *)
Lemma coop_holder c t1 t2 tr :
  coop (Some c) t1 t2 tr ->
  exists e tr', tr = (c, e) :: tr'.
Proof.
  inversion 1 as [| cur e t1' t2' tr' Hc Hco | cur e t1' t2' tr' Hc Hco];
    subst.
  - destruct c; [eauto | congruence].
  - destruct c; [congruence | eauto].
Qed.

(** A task that did a step that is no await, and has more to do, does its
    next step before any other task runs. *)
Lemma coop_hold cur t1 t2 tr :
  coop cur t1 t2 tr ->
  forall pre c e post,
    tr = pre ++ (c, e) :: post ->
    is_await e = false ->
    project c post <> [] ->
    exists e' post', post = (c, e') :: post'.
Proof.
  induction 1 as [| cur e0 t1 t2 tr Hc Hco IH | cur e0 t1 t2 tr Hc Hco IH];
    intros pre c e post Htr Haw Hne.
  - by destruct pre.
  - destruct pre as [| x pre]; simpl in Htr.
    + injection Htr as <- <- ->.
      pose proof (coop_project _ _ _ _ Hco First) as Hp. simpl in Hp.
      unfold holder in Hco. rewrite Haw in Hco.
      destruct t1 as [| e1 t1]; [by rewrite Hp in Hne |].
      apply (coop_holder _ _ _ _ Hco).
    + injection Htr as _ ->. eapply IH; eauto.
  - destruct pre as [| x pre]; simpl in Htr.
    + injection Htr as <- <- ->.
      pose proof (coop_project _ _ _ _ Hco Second) as Hp. simpl in Hp.
      unfold holder in Hco. rewrite Haw in Hco.
      destruct t2 as [| e2 t2]; [by rewrite Hp in Hne |].
      apply (coop_holder _ _ _ _ Hco).
    + injection Htr as _ ->. eapply IH; eauto.
Qed.

(** In a run of [generate_ws] the broadcast is followed at once by the two
    initialisations, the print and the creation of the generator. *)
Lemma generate_ws_after_broadcast dumps_value eng frames takes bc p cmd
    q :
  trace (snd (generate_ws dumps_value (ws_world eng frames takes bc))) =
    p ++ EBroadcast cmd :: q ->
  exists text q',
    cmd = command (PStr text) /\
    q = EAssign "recv_tokens" 0 :: EAssign "send_tokens" 0 ::
        EPrint [PStr "starting stream, text:"; PStr text] ::
        ECall ProbsStream (stream_args (PStr text)) :: q'.
Proof.
  destruct frames as [| [text | b] acks].
  { rewrite generate_ws_no_prompt. unfold trace. simpl.
    destruct p as [| ? [| ? p]]; discriminate. }
  2: { rewrite generate_ws_binary_prompt. unfold trace. simpl.
       destruct p as [| ? [| ? [| ? p]]]; discriminate. }
  destruct bc as [| [x | e] bc].
  { rewrite generate_ws_no_peer. unfold trace. simpl.
    destruct p as [| ? [| ? [| ? p]]]; discriminate. }
  2: { rewrite generate_ws_bc_err. unfold trace. simpl.
       destruct p as [| ? [| ? [| ? [| ? p]]]]; discriminate. }
  destruct (generate_ws_run dumps_value eng text acks takes x bc)
    as (res & r' & s' & ib' & k' & es & Hrun & ->).
  pose proof (ws_run_events _ _ _ _ _ _ _ _ _ _ _ _ _ Hrun) as Hev.
  unfold trace. cbn [snd log]. rewrite !map_app.
  set (rest := map what es ++ map what (ws_epilogue res k' r' s')).
  assert (Hrest : Forall (fun e => forall c, e <> EBroadcast c) rest).
  { subst rest. apply Forall_app. split.
    - eapply Forall_impl; [exact Hev |]. by intros [].
    - destruct res as [[] | | |]; simpl; try constructor.
      destruct (spend k'); repeat constructor; done. }
  simpl. intros Heq.
  destruct p as [| ? [| ? [| ? [| ? [| ? [| ? [| ? p]]]]]]];
    simpl in Heq; try discriminate.
  - injection Heq as _ _ <- <-. exists text, rest. split; reflexivity.
  - injection Heq as _ _ _ _ _ _ _ Heq.
    rewrite Forall_forall in Hrest.
    destruct (Hrest (EBroadcast cmd)) with cmd; [| reflexivity].
    rewrite Heq. apply elem_of_app. right. apply list_elem_of_here.
Qed.

Lemma project_app c l1 l2 :
  project c (l1 ++ l2) = project c l1 ++ project c l2.
Proof. unfold project. apply omap_app. Qed.

Lemma project_cons_same c e l :
  project c ((c, e) :: l) = e :: project c l.
Proof. unfold project. simpl. by rewrite decide_True. Qed.

Lemma coop_hold_next cur t1 t2 tr pre c e post e' q :
  coop cur t1 t2 tr ->
  tr = pre ++ (c, e) :: post ->
  is_await e = false ->
  project c post = e' :: q ->
  exists post', post = (c, e') :: post' /\ project c post' = q.
Proof.
  intros Hco Htr Haw Hp.
  destruct (coop_hold _ _ _ _ Hco pre c e post Htr Haw) as (e1 & post' & ->).
  { by rewrite Hp. }
  rewrite project_cons_same in Hp. injection Hp as -> <-. eauto.
Qed.

Lemma overlapping_schedule_coop :
  coop None session1 session2 overlapping_schedule.
Proof.
  vm_compute.
  repeat first
    [ apply coop_nil
    | apply coop_first; [discriminate |]
    | apply coop_second; [discriminate |] ].
Qed.

Lemma overlapping_schedule_split :
  overlapping_schedule =
    take 13 overlapping_schedule ++
    (Second, EBroadcast (command (PStr "World"))) ::
    drop 14 overlapping_schedule.
Proof. vm_compute. reflexivity. Qed.

(** C3, the claim as stated fails: with two connections, the second one
    broadcasts its Command while the round of the first is still in
    flight; nothing in front of the broadcast makes it wait. *)
Lemma rounds_overlap :
  let p := take 14 overlapping_schedule in
  coop None session1 session2 overlapping_schedule /\
  p `prefix_of` overlapping_schedule /\
  last p = Some (Second, EBroadcast (command (PStr "World"))) /\
  in_flight First p = true /\ in_flight Second p = true.
Proof.
  split; [apply overlapping_schedule_coop |].
  split; [apply prefix_take | repeat split; vm_compute; reflexivity].
Qed.

(** C3, amended: the leader has no lock or queue in front of the broadcast.
    A broadcast is one step of the event loop, and on the WebSocket endpoint
    a connection that broadcast its Command initialises its counters, prints
    and creates its generator before any other connection runs; rounds of
    different connections can nevertheless be in flight together. *)
Theorem broadcast_then_call_unbroken dumps_value
    eng1 frames1 takes1 bc1 eng2 frames2 takes2 bc2
    tr pre c cmd post :
  coop None
    (trace (snd (generate_ws dumps_value
                   (ws_world eng1 frames1 takes1 bc1))))
    (trace (snd (generate_ws dumps_value
                   (ws_world eng2 frames2 takes2 bc2))))
    tr ->
  tr = pre ++ (c, EBroadcast cmd) :: post ->
  exists text post',
    cmd = command (PStr text) /\
    post = (c, EAssign "recv_tokens" 0) :: (c, EAssign "send_tokens" 0) ::
           (c, EPrint [PStr "starting stream, text:"; PStr text]) ::
           (c, ECall ProbsStream (stream_args (PStr text))) :: post'.
Proof.
  intros Hco Htr.
  pose proof (coop_project _ _ _ _ Hco c) as Hp.
  rewrite Htr, project_app, project_cons_same in Hp.
  assert (Hq : exists text q',
             cmd = command (PStr text) /\
             project c post =
               EAssign "recv_tokens" 0 :: EAssign "send_tokens" 0 ::
               EPrint [PStr "starting stream, text:"; PStr text] ::
               ECall ProbsStream (stream_args (PStr text)) :: q').
  { destruct c; simpl in Hp; symmetry in Hp;
      apply generate_ws_after_broadcast in Hp; exact Hp. }
  destruct Hq as (text & q' & -> & Hq).
  destruct (coop_hold_next _ _ _ _ pre c _ post _ _ Hco Htr eq_refl Hq)
    as (post1 & -> & Hq1).
  rewrite (cons_middle _ pre), app_assoc in Htr.
  destruct (coop_hold_next _ _ _ _ _ c _ post1 _ _ Hco Htr eq_refl Hq1)
    as (post2 & -> & Hq2).
  rewrite (cons_middle _ _ ((c, EAssign "send_tokens" 0) :: post2)),
    app_assoc in Htr.
  destruct (coop_hold_next _ _ _ _ _ c _ post2 _ _ Hco Htr eq_refl Hq2)
    as (post3 & -> & Hq3).
  rewrite (cons_middle _ _ ((c, EPrint _) :: post3)), app_assoc in Htr.
  destruct (coop_hold_next _ _ _ _ _ c _ post3 _ _ Hco Htr eq_refl Hq3)
    as (post4 & -> & Hq4).
  exists text, post4. split; reflexivity.
Qed.

(** ** The theorems at concrete inputs *)


(** C2, amended, on the run with eleven events and no acknowledgment,
    where the gap does reach 11. *)
Lemma ws_gap_bounded_witness :
  let w' := snd (generate_ws example_dumps
                   (ws_world (counting_engine 11) [Text "Hello"] None
                      [BcOk []])) in
  gap (fr 0 11) = Some 11 /\
  Forall (fun o => forall g, gap (vars o) = Some g ->
            g <= 11 /\ (quiet (what o) = true -> g <= 10)) (log w').
Proof.
  split; [reflexivity |].
  apply (ws_gap_bounded example_dumps (counting_engine 11) [Text "Hello"]
           None [BcOk []]).
Defined.

(** C3, amended, on the overlapping schedule, at the broadcast of the
    second connection. *)
Lemma broadcast_then_call_unbroken_witness :
  coop None session1 session2 overlapping_schedule /\
  overlapping_schedule =
    take 13 overlapping_schedule ++
    (Second, EBroadcast (command (PStr "World"))) ::
    drop 14 overlapping_schedule /\
  exists text post',
    command (PStr "World") = command (PStr text) /\
    drop 14 overlapping_schedule =
      (Second, EAssign "recv_tokens" 0) :: (Second, EAssign "send_tokens" 0) ::
      (Second, EPrint [PStr "starting stream, text:"; PStr text]) ::
      (Second, ECall ProbsStream (stream_args (PStr text))) :: post'.
Proof.
  split; [apply overlapping_schedule_coop |].
  split; [apply overlapping_schedule_split |].
  apply (broadcast_then_call_unbroken example_dumps
           (counting_engine 2) [Text "Hello"] None [BcOk []]
           (counting_engine 2) [Text "World"] None [BcOk []]
           overlapping_schedule (take 13 overlapping_schedule) Second
           (command (PStr "World")) (drop 14 overlapping_schedule)
           overlapping_schedule_coop overlapping_schedule_split).
Defined.

(** C4, amended, on a follower whose engine raises at once. *)
Lemma follower_failure_swallowed_witness :
  let e := RuntimeError "CUDA error" in
  let l := command (PStr "Hello") in
  let rw := follower_body (follower_world 1 (failing_engine 0 e) [BcOk l]) in
  1 <> 0 /\
  failure (failing_engine 0 e Generate
             (config_args (overwrite (replicate 4 PNone) l))) = Some e /\
  fst rw = Ret tt /\
  trace (snd rw) =
    [EBroadcastRecv (overwrite (replicate 4 PNone) l);
     ECall Generate (config_args (overwrite (replicate 4 PNone) l));
     ERaise e] /\
  printed (trace (snd rw)) = [] /\
  chan (snd rw) = [].
Proof.
  split; [discriminate | split; [reflexivity |]].
  apply (follower_failure_swallowed 1
           (failing_engine 0 (RuntimeError "CUDA error"))
           (command (PStr "Hello")) [] (RuntimeError "CUDA error"));
    [discriminate | reflexivity].
Defined.




(** C8, amended, on a follower whose first broadcast call raises. *)
Lemma broadcast_failure_not_fatal_witness :
  let e := RuntimeError "NCCL communicator was aborted" in
  let bc := [BcErr e; BcOk (command (PStr "Hello"))] in
  let rw := follower_loop 2 (follower_world 1 (counting_engine 3) bc) in
  1 <> 0 /\
  fst rw = Ret tt /\
  chan (snd rw) = [] /\
  trace (snd rw) = flat_map (follower_events (counting_engine 3)) bc.
Proof.
  split; [discriminate |].
  apply (proj1 (broadcast_failure_not_fatal example_dumps) 1
           (counting_engine 3)
           [BcErr (RuntimeError "NCCL communicator was aborted");
            BcOk (command (PStr "Hello"))] 2%nat).
  discriminate.
Defined.



(** ** Further properties of the WebSocket endpoint *)

(** While the text frames last, what the loop read is text frames only. *)
Lemma ws_run_read_texts dumps_value evs fails r s ib k res r' s' ib' k' es :
  ws_run dumps_value evs fails r s ib k res r' s' ib' k' es ->
  0 <= s -> r = Z.max 0 (s - 10) ->
  Z.max 0 (s + Z.of_nat (length evs) - 10) - r
    <= Z.of_nat (length (leading_texts ib)) ->
  read (map what es) = map Text (received (map what es)).
Proof.
  induction 1 as [r s ib k | e r s ib k
                 | ev rest fails r s ib k Hk
                 | ev rest fails r s ib k k1 res r' s' ib' k' es Hk Hg Hrun IH
                 | ev rest fails r s f ib k k1 res r' s' ib' k' es Hk Hg Hrun IH
                 | ev rest fails r s b ib k k1 Hk Hg
                 | ev rest fails r s k k1 Hk Hg];
    simpl length; intros Hs Hr Hn; try done.
  - simpl. apply IH; lia.
  - simpl. f_equal. apply IH; [lia | lia |]. simpl in Hn. lia.
  - simpl in Hn. lia.
Qed.

Lemma app_take_drop {A} (l1 l2 l : list A) (j : nat) :
  l1 ++ l2 = l -> length l1 = j -> l1 = take j l /\ l2 = drop j l.
Proof.
  intros <- <-. by rewrite take_app_length, drop_app_length.
Qed.

(** A round with a client that stays to the end and has sent text frames
    enough for the whole output. *)
Lemma generate_ws_enough dumps_value eng text acks takes x bc :
  let g := eng ProbsStream (stream_args (PStr text)) in
  let n := length (items g) in
  let rw := generate_ws dumps_value
              (ws_world eng (Text text :: acks) takes (BcOk x :: bc)) in
  (n <= length (leading_texts acks) + 10)%nat ->
  takes_at_least takes (S n) ->
  fst rw = completion (failure g) /\
  read (trace (snd rw)) = Text text :: take (n - 10) acks /\
  inbox (snd rw) = drop (n - 10) acks /\
  locals (snd rw) = fr (Z.of_nat (n - 10)) (Z.of_nat n) /\
  sent_frames (trace (snd rw)) = map (token_json dumps_value) (items g) /\
  pulled (trace (snd rw)) = items g.
Proof.
  intros g n rw Hn Ht.
  destruct (generate_ws_view dumps_value eng text acks takes x bc)
    as (res & r' & s' & ib' & k' & es & Hrun & Hres & Hib & Hloc & _ & Hs
        & Hp & _ & Hrd).
  fold g in Hrun. fold rw in Hres, Hib, Hloc, Hs, Hp, Hrd. clearbody rw.
  subst n.
  assert (Ht' : takes_at_least takes (length (items g)))
    by (eapply takes_at_least_le; [exact Ht | lia]).
  destruct (ws_run_enough _ _ _ _ _ _ _ _ _ _ _ _ _ Hrun)
    as (-> & Hpull & -> & -> & _); [lia | lia | lia | exact Ht' |].
  pose proof (ws_run_counts _ _ _ _ _ _ _ _ _ _ _ _ _ Hrun)
    as (Hcat & Hr' & Hs' & Hk').
  pose proof (ws_run_read_texts _ _ _ _ _ _ _ _ _ _ _ _ _ Hrun
                ltac:(lia) ltac:(lia) ltac:(lia)) as Hread.
  destruct (ws_run_sent _ _ _ _ _ _ _ _ _ _ _ _ _ Hrun)
    as (_ & _ & _ & Hsent).
  destruct (app_take_drop _ _ _ (length (items g) - 10) Hcat) as [Hrd' Hib'].
  { rewrite Hread, length_map. lia. }
  assert (Hlen : length (sent_frames (map what es)) = length (items g))
    by lia.
  rewrite Hlen in Hk'.
  destruct (spend_left_after takes (length (items g)) Ht) as [k1 Hk1].
  rewrite <- Hk' in Hk1.
  split_and!.
  - rewrite Hres. unfold ws_result, completion.
    destruct (failure g); [done | by rewrite Hk1].
  - by rewrite Hrd, Hrd'.
  - by rewrite Hib.
  - rewrite Hloc. f_equal; lia.
  - rewrite Hs, Hsent, Hpull; [done |]. right. by rewrite Hk1.
  - by rewrite Hp.
Qed.

(** A round in which the text frames run short of what the output needs,
    with a client that takes every frame sent until then. *)
Lemma generate_ws_short dumps_value eng text acks takes x bc :
  let g := eng ProbsStream (stream_args (PStr text)) in
  let lead := length (leading_texts acks) in
  let rw := generate_ws dumps_value
              (ws_world eng (Text text :: acks) takes (BcOk x :: bc)) in
  (lead + 10 < length (items g))%nat ->
  takes_at_least takes (lead + 11) ->
  received (trace (snd rw)) = text :: leading_texts acks /\
  pulled (trace (snd rw)) = take (lead + 11) (items g) /\
  sent_frames (trace (snd rw)) =
    map (token_json dumps_value) (take (lead + 11) (items g)) /\
  locals (snd rw) = fr (Z.of_nat lead) (Z.of_nat (lead + 11)) /\
  (EStop ∉ trace (snd rw)) /\ (EClose ∉ trace (snd rw)) /\
  match drop lead acks with
  | [] => fst rw = hangup (left_after takes (lead + 11)) /\
          inbox (snd rw) = []
  | Binary b :: rest => fst rw = Exc (KeyError "text") /\ inbox (snd rw) = rest
  | Text _ :: _ => False
  end.
Proof.
  intros g lead rw Hn Ht.
  destruct (generate_ws_view dumps_value eng text acks takes x bc)
    as (res & r' & s' & ib' & k' & es & Hrun & Hres & Hib & Hloc & Htr & Hs
        & Hp & Hrc & _).
  fold g in Hrun. fold rw in Hres, Hib, Hloc, Htr, Hs, Hp, Hrc. clearbody rw.
  fold lead in Ht.
  destruct (ws_run_short _ _ _ _ _ _ _ _ _ _ _ _ _ Hrun)
    as (Hgap & Hstop & Hrecv & Hend); [lia | lia | lia | |].
  { replace (Z.to_nat _) with (lead + 11)%nat by lia. exact Ht. }
  pose proof (ws_run_counts _ _ _ _ _ _ _ _ _ _ _ _ _ Hrun)
    as (_ & Hr' & Hs' & Hk').
  pose proof (ws_run_events _ _ _ _ _ _ _ _ _ _ _ _ _ Hrun) as Hev.
  destruct (ws_run_sent_length _ _ _ _ _ _ _ _ _ _ _ _ _ Hrun)
    as [Hsl Hpl]; [lia |].
  destruct (ws_run_sent_take _ _ _ _ _ _ _ _ _ _ _ _ _ Hrun) as [Hst Hpt].
  assert (Hsl' : length (sent_frames (map what es)) = (lead + 11)%nat).
  { rewrite Hsl. fold lead.
    replace (Nat.min _ _) with (lead + 11)%nat by lia.
    by apply taken_enough. }
  assert (Hpl' : length (pulled (map what es)) = (lead + 11)%nat).
  { rewrite Hpl. fold lead.
    replace (Nat.min _ _) with (lead + 11)%nat by lia.
    apply taken_enough. destruct takes; simpl in *; lia. }
  assert (Hnr : ws_result res k' = res /\ ws_epilogue res k' r' s' = []).
  { fold lead in Hend. destruct (drop lead acks) as [| [f | b] rest];
      [destruct Hend as [-> _]; by destruct k' as [[| j] |] | done
      | by destruct Hend as [-> _]]. }
  destruct Hnr as [Hr Hep]. rewrite Hr in Hres.
  rewrite Hep, app_nil_r in Htr.
  rewrite Hrecv in Hr'. fold lead in Hr'.
  split_and!.
  - by rewrite Hrc, Hrecv.
  - by rewrite Hp, Hpt, Hpl'.
  - by rewrite Hs, Hst, Hsl', fmap_take.
  - rewrite Hloc. f_equal; lia.
  - rewrite Htr, elem_of_app. intros [Hin | Hin]; [| by apply Hstop].
    simpl in Hin.
    repeat (apply elem_of_cons in Hin as [Hin | Hin]; [discriminate |]).
    by apply elem_of_nil in Hin.
  - rewrite Htr, elem_of_app. intros [Hin | Hin].
    + simpl in Hin.
      repeat (apply elem_of_cons in Hin as [Hin | Hin]; [discriminate |]).
      by apply elem_of_nil in Hin.
    + rewrite Forall_forall in Hev. by specialize (Hev _ Hin).
  - fold lead in Hend. rewrite Hres, Hib.
    rewrite Hsl' in Hk'. by rewrite <- Hk'.
Qed.

(** X3: when the client stays to the end and has sent text acknowledgments
    enough for the whole output ([n <= acks + 10]), the handler reads
    exactly [max 0 (n - 10)] of them, in order, and leaves the others
    unread; it ends as the engine does, with [send_tokens = n] and
    [recv_tokens = max 0 (n - 10)]. *)
Theorem ws_acks_consumed dumps_value eng text acks takes x bc :
  let g := eng ProbsStream (stream_args (PStr text)) in
  let n := length (items g) in
  let rw := generate_ws dumps_value
              (ws_world eng (Text text :: acks) takes (BcOk x :: bc)) in
  (n <= length (leading_texts acks) + 10)%nat ->
  takes_at_least takes (S n) ->
  fst rw = completion (failure g) /\
  read (trace (snd rw)) = Text text :: take (n - 10) acks /\
  inbox (snd rw) = drop (n - 10) acks /\
  locals (snd rw) = fr (Z.of_nat (n - 10)) (Z.of_nat n).
Proof.
  intros g n rw Hn Ht.
  destruct (generate_ws_enough dumps_value eng text acks takes x bc Hn Ht)
    as (H1 & H2 & H3 & H4 & _).
  by split_and!.
Qed.

Lemma drop_map_text_length (acks : list string) :
  drop (length acks) (map Text acks) = [].
Proof. apply drop_ge. by rewrite length_map. Qed.

(** X4: when the output is longer than the text acknowledgments allow
    ([n > acks + 10]) and the client takes the frames sent, the handler
    sends frames for the first [acks + 11] events, reads every
    acknowledgment, and then stays suspended in [receive_text] while the
    client is there, or ends with [WebSocketDisconnect] when the client
    has gone after these frames: the generator is not exhausted and the
    socket is not closed. *)
Theorem ws_stalls_unacknowledged dumps_value eng text acks takes x bc :
  let g := eng ProbsStream (stream_args (PStr text)) in
  let rw := generate_ws dumps_value
              (ws_world eng (Text text :: map Text acks) takes
                 (BcOk x :: bc)) in
  (length acks + 10 < length (items g))%nat ->
  takes_at_least takes (length acks + 11) ->
  fst rw = (if decide (takes = Some (length acks + 11)%nat)
            then Exc WebSocketDisconnect else Wait) /\
  received (trace (snd rw)) = text :: acks /\
  inbox (snd rw) = [] /\
  pulled (trace (snd rw)) = take (length acks + 11) (items g) /\
  sent_frames (trace (snd rw)) =
    map (token_json dumps_value) (take (length acks + 11) (items g)) /\
  locals (snd rw) = fr (Z.of_nat (length acks)) (Z.of_nat (length acks + 11)) /\
  (EStop ∉ trace (snd rw)) /\ (EClose ∉ trace (snd rw)).
Proof.
  intros g rw Hn Ht.
  pose proof (generate_ws_short dumps_value eng text (map Text acks) takes
                x bc) as H.
  cbv zeta in H. fold g rw in H. clearbody rw.
  rewrite leading_texts_map, drop_map_text_length in H.
  destruct (H Hn Ht) as (H1 & H2 & H3 & H4 & H5 & H6 & H7 & H8).
  split_and!; try done.
  rewrite H7. case_decide as Hd.
  - rewrite Hd. cbn [left_after hangup]. by rewrite Nat.sub_diag.
  - destruct takes as [m |]; cbn [left_after hangup takes_at_least] in *;
      [| done].
    destruct (m - (length acks + 11))%nat as [| j] eqn:Hj; [| done].
    destruct Hd. f_equal. lia.
Qed.

Lemma drop_map_text_binary (acks : list string) b rest :
  drop (length acks) (map Text acks ++ Binary b :: rest) = Binary b :: rest.
Proof.
  rewrite <- (length_map Text acks). apply drop_app_length.
Qed.

(** X18: a binary frame where an acknowledgment is awaited ends the handler
    with [KeyError], after the frames the text acknowledgments before it
    allowed; a binary frame for a prompt ends it before anything is
    broadcast. The socket is not closed. *)
Theorem ws_binary_frame dumps_value :
  (forall eng b rest takes bc,
     let rw := generate_ws dumps_value
                 (ws_world eng (Binary b :: rest) takes bc) in
     fst rw = Exc (KeyError "text") /\
     trace (snd rw) = [EAccept; ERecvBytes b] /\
     chan (snd rw) = bc) /\
  (forall eng text acks b rest takes x bc,
     let g := eng ProbsStream (stream_args (PStr text)) in
     let rw := generate_ws dumps_value
                 (ws_world eng (Text text :: map Text acks ++ Binary b :: rest)
                    takes (BcOk x :: bc)) in
     (length acks + 10 < length (items g))%nat ->
     takes_at_least takes (length acks + 11) ->
     fst rw = Exc (KeyError "text") /\
     received (trace (snd rw)) = text :: acks /\
     inbox (snd rw) = rest /\
     sent_frames (trace (snd rw)) =
       map (token_json dumps_value) (take (length acks + 11) (items g)) /\
     (EStop ∉ trace (snd rw)) /\ (EClose ∉ trace (snd rw))).
Proof.
  split.
  - intros eng b rest takes bc rw. subst rw.
    by rewrite generate_ws_binary_prompt.
  - intros eng text acks b rest takes x bc g rw Hn Ht.
    pose proof (generate_ws_short dumps_value eng text
                  (map Text acks ++ Binary b :: rest) takes x bc) as H.
    cbv zeta in H. fold g rw in H. clearbody rw.
    rewrite leading_texts_binary, drop_map_text_binary in H.
    destruct (H Hn Ht) as (H1 & H2 & H3 & H4 & H5 & H6 & H7 & H8).
    by split_and!.
Qed.

(** X19: a client that goes away after taking [m] frames, fewer than the
    handler would send it, ends the handler with [WebSocketDisconnect] at
    the send that follows: exactly the first [m] frames were sent, the event
    of the next one was pulled from the engine, and the socket is not
    closed. A client that goes away right after the last frame ends it
    with [WebSocketDisconnect] at the close. *)
Theorem ws_peer_departed dumps_value eng text acks (m : nat) x bc :
  let g := eng ProbsStream (stream_args (PStr text)) in
  let rw := generate_ws dumps_value
              (ws_world eng (Text text :: acks) (Some m) (BcOk x :: bc)) in
  (m <= length (leading_texts acks) + 10)%nat ->
  ((m < length (items g))%nat ->
   fst rw = Exc WebSocketDisconnect /\
   sent_frames (trace (snd rw)) =
     map (token_json dumps_value) (take m (items g)) /\
   pulled (trace (snd rw)) = take (S m) (items g) /\
   (EStop ∉ trace (snd rw)) /\ (EClose ∉ trace (snd rw))) /\
  (m = length (items g) -> failure g = None ->
   fst rw = Exc WebSocketDisconnect /\
   sent_frames (trace (snd rw)) = map (token_json dumps_value) (items g) /\
   last (trace (snd rw)) = Some EStop).
Proof.
  intros g rw Hm.
  destruct (generate_ws_view dumps_value eng text acks (Some m) x bc)
    as (res & r' & s' & ib' & k' & es & Hrun & Hres & _ & _ & Htr & Hs
        & Hp & _).
  fold g in Hrun. fold rw in Hres, Htr, Hs, Hp. clearbody rw.
  pose proof (ws_run_events _ _ _ _ _ _ _ _ _ _ _ _ _ Hrun) as Hev.
  destruct (ws_run_sent_length _ _ _ _ _ _ _ _ _ _ _ _ _ Hrun)
    as [Hsl Hpl]; [lia |].
  destruct (ws_run_sent_take _ _ _ _ _ _ _ _ _ _ _ _ _ Hrun) as [Hst Hpt].
  cbv [taken fmap option_fmap option_map] in Hsl, Hpl.
  split.
  - intros Hlt.
    destruct (ws_run_departed _ _ _ _ _ _ _ _ _ _ _ _ _ m Hrun)
      as (-> & -> & Hstop & _); [lia | done | lia |].
    cbn [ws_result] in Hres. cbn [ws_epilogue map] in Htr.
    rewrite app_nil_r in Htr.
    split_and!.
    + exact Hres.
    + rewrite Hs, Hst, Hsl, fmap_take. f_equal. lia.
    + rewrite Hp, Hpt, Hpl. f_equal. lia.
    + rewrite Htr, elem_of_app. intros [Hin | Hin]; [| by apply Hstop].
      simpl in Hin.
      repeat (apply elem_of_cons in Hin as [Hin | Hin]; [discriminate |]).
      by apply elem_of_nil in Hin.
    + rewrite Htr, elem_of_app. intros [Hin | Hin].
      * simpl in Hin.
        repeat (apply elem_of_cons in Hin as [Hin | Hin]; [discriminate |]).
        by apply elem_of_nil in Hin.
      * rewrite Forall_forall in Hev. by specialize (Hev _ Hin).
  - intros -> Hf.
    destruct (ws_run_enough _ _ _ _ _ _ _ _ _ _ _ _ _ Hrun)
      as (-> & Hpull & _ & _ & Hlast); [lia | lia | lia | simpl; lia |].
    pose proof (ws_run_counts _ _ _ _ _ _ _ _ _ _ _ _ _ Hrun)
      as (_ & _ & _ & Hk').
    rewrite Hsl in Hk'. simpl in Hk'.
    replace (_ - _)%nat with 0%nat in Hk' by lia. subst k'.
    rewrite Hf in Hres, Htr, Hlast.
    cbn [ws_result completion spend] in Hres.
    cbn [ws_epilogue completion spend map] in Htr.
    rewrite app_nil_r in Htr.
    split_and!.
    + exact Hres.
    + rewrite Hs, Hst, Hsl. apply take_ge. rewrite length_map. lia.
    + by rewrite Htr, last_app, Hlast.
Qed.

(** X5: the content of the frames the client sends after the prompt is
    never looked at: two clients that send the same prompt and then
    frames that are one by one of the same kind, text or binary, get the
    same frames, the same events are pulled from the engine, and the handler
    ends with the same result and the same counters. *)
Theorem ack_content_irrelevant dumps_value eng text acks1 acks2 takes
    x bc :
  let rw1 := generate_ws dumps_value
               (ws_world eng (Text text :: acks1) takes (BcOk x :: bc)) in
  let rw2 := generate_ws dumps_value
               (ws_world eng (Text text :: acks2) takes (BcOk x :: bc)) in
  Forall2 same_kind acks1 acks2 ->
  fst rw1 = fst rw2 /\
  sent_frames (trace (snd rw1)) = sent_frames (trace (snd rw2)) /\
  pulled (trace (snd rw1)) = pulled (trace (snd rw2)) /\
  locals (snd rw1) = locals (snd rw2) /\
  Forall2 same_kind (inbox (snd rw1)) (inbox (snd rw2)).
Proof.
  intros rw1 rw2 Hkind.
  destruct (generate_ws_run dumps_value eng text acks1 takes x bc)
    as (res & r' & s' & ib1' & k' & es1 & Hrun1 & E1).
  destruct (ws_run_same_kind _ _ _ _ _ _ _ _ _ _ _ _ _ _ Hrun1 Hkind)
    as (ib2' & es2 & Hrun2 & Hk' & Hs & Hp).
  pose proof (generate_ws_sound dumps_value eng text acks2 takes x bc
                _ _ _ _ _ _ Hrun2) as E2.
  fold rw1 in E1. fold rw2 in E2. clearbody rw1 rw2. subst rw1 rw2.
  destruct (ws_epilogue_silent res k' r' s') as (Hes & Hep & _).
  unfold trace. cbn [fst snd inbox locals log]. rewrite !map_app.
  unfold sent_frames, pulled in *. rewrite !omap_app, Hs, Hp.
  by split_and!.
Qed.

(** ** The two transports side by side *)

(** X6: for the same prompt and the same engine output, a WebSocket client
    that stays to the end and acknowledges enough receives the frames of
    the streamed HTTP response, without the sentinel, and both handlers end
    the same way. *)
Theorem transports_agree dumps_value eng o text acks takes x bc x' bc' :
  let g := eng ProbsStream (stream_args (PStr text)) in
  let http := serve_generate dumps_value
                (http_world eng (JObject o) (BcOk x' :: bc')) in
  let ws := generate_ws dumps_value
              (ws_world eng (Text text :: acks) takes (BcOk x :: bc)) in
  o !! "text" = Some (PStr text) ->
  (length (items g) <= length (leading_texts acks) + 10)%nat ->
  takes_at_least takes (S (length (items g))) ->
  yielded (trace (snd http)) =
    sent_frames (trace (snd ws)) ++
    match failure g with Some _ => [] | None => [eos] end /\
  fst http = fst ws.
Proof.
  intros g http ws Ho Hn Ht.
  assert (Hy : yielded (trace (snd http)) =
               map (token_json dumps_value) (items g) ++
               match failure g with Some _ => [] | None => [eos] end)
    by exact (yielded_serve_generate dumps_value eng o (PStr text) x' bc' Ho).
  destruct (generate_ws_enough dumps_value eng text acks takes x bc Hn Ht)
    as (Hw & _ & _ & _ & Hs & _).
  fold ws in Hw, Hs.
  assert (Hh : fst http = completion (failure g)).
  { subst http.
    rewrite (serve_generate_run dumps_value eng o (PStr text) x' bc' Ho).
    reflexivity. }
  clearbody http ws.
  rewrite Hy, Hs, Hw, Hh. done.
Qed.

(** ** Requests that start no round *)


(** X2: a WebSocket connection starts a round only with a text prompt and
    a completed broadcast: without a prompt, or with a binary frame for a
    prompt, the collective is left untouched, and when the broadcast does
    not complete or fails the engine is not called and no frame is sent; in
    no such case does the handler return or close the socket, and it has
    read at most the first frame. *)
Theorem ws_no_round dumps_value eng frames takes bc :
  let rw := generate_ws dumps_value (ws_world eng frames takes bc) in
  let t := trace (snd rw) in
  (frames = [] \/ (exists b rest, frames = Binary b :: rest) \/
   bc = [] \/ exists e bc', bc = BcErr e :: bc') ->
  broadcasts t = [] /\ engine_calls t = [] /\ sent_frames t = [] /\
  fst rw <> Ret tt /\ (EClose ∉ t) /\
  (frames = [] \/ (exists b rest, frames = Binary b :: rest) ->
   chan (snd rw) = bc) /\
  received t = texts (take 1 frames) /\
  read t = take 1 frames.
Proof.
  intros rw t H. subst t rw.
  destruct frames as [| [text | b] acks].
  { rewrite generate_ws_no_prompt. unfold trace. cbn.
    repeat split; try done.
    - by destruct takes as [[| m] |].
    - intros Hin. apply elem_of_cons in Hin as [Hin | Hin]; [done |].
      by apply elem_of_nil in Hin. }
  2: { rewrite generate_ws_binary_prompt. unfold trace. cbn.
       repeat split; try done.
       intros Hin.
       repeat (apply elem_of_cons in Hin as [Hin | Hin]; [done |]).
       by apply elem_of_nil in Hin. }
  destruct H as [H | [(b & rest & H) | [-> | (e & bc' & ->)]]];
    [done | done | |].
  - rewrite generate_ws_no_peer. unfold trace. cbn.
    repeat split; try done.
    intros Hin.
    repeat (apply elem_of_cons in Hin as [Hin | Hin]; [done |]).
    by apply elem_of_nil in Hin.
  - rewrite generate_ws_bc_err. unfold trace. cbn.
    repeat split; try done.
    + intros Hin.
      repeat (apply elem_of_cons in Hin as [Hin | Hin]; [done |]).
      by apply elem_of_nil in Hin.
    + by intros [H | (b & rest & H)].
Qed.

(** ** The rounds of a follower *)

Lemma engine_calls_follower_events eng l :
  engine_calls (flat_map (follower_events eng) l) = omap delivered l.
Proof.
  induction l as [| [c | e] l IH]; [done | |].
  - unfold engine_calls in *. cbn [flat_map follower_events].
    rewrite omap_app, IH. by destruct (failure _).
  - simpl. exact IH.
Qed.

Lemma follower_events_silent eng l :
  Forall (fun e => match e with
                   | EBroadcastRecv _ | EBroadcastFail _ | ECall Generate _
                   | ERaise _ => True
                   | _ => False
                   end) (flat_map (follower_events eng) l).
Proof.
  induction l as [| [c | e] l IH]; simpl; [constructor | |].
  - repeat (apply Forall_cons_2; [exact I |]).
    apply Forall_app. split; [| exact IH].
    destruct (failure _); repeat constructor.
  - apply Forall_cons_2; [exact I | exact IH].
Qed.

Lemma omap_delivered_deliver cmds : omap delivered (map deliver cmds) = cmds.
Proof.
  induction cmds as [| [a b c d] cmds IH]; [done |].
  cbn. f_equal. exact IH.
Qed.

(** X7: a follower calls its engine once for every Command the collective
    delivers, in the order of delivery and with the four values delivered,
    whether or not earlier engine calls or broadcast calls raised; it never
    prints, never sends to a client and never broadcasts as the source. *)
Theorem follower_rounds_in_order rk eng bc n :
  let t := trace (snd (follower_loop n (follower_world rk eng bc))) in
  rk <> 0 ->
  engine_calls t = omap delivered (take n bc) /\
  (forall cmds, bc = map deliver cmds -> engine_calls t = take n cmds) /\
  printed t = [] /\ sent_frames t = [] /\ yielded t = [] /\
  broadcasts t = [].
Proof.
  intros t Hr. subst t.
  rewrite (follower_loop_run n (follower_world rk eng bc) Hr).
  unfold trace. cbn [snd log follower_world engine chan locals].
  change ([] ++ ?l) with l. rewrite what_stamp.
  pose proof (follower_events_silent eng (take n bc)) as Hsil.
  split; [apply engine_calls_follower_events | split].
  - intros cmds ->. rewrite engine_calls_follower_events.
    by rewrite <- fmap_take, omap_delivered_deliver.
  - repeat split; apply (omap_none _ _ _ Hsil); by intros [].
Qed.

(** ** Start-up *)

Section BootFacts.

Import Boot.

Ltac brun :=
  cbv [mbind B_bind mret B_ret throw get record set_stdout set_tensor_type
       invoke say env_int read_params make_model_args
       environ int_of_str pth_files params_json n_words raises stdout
       default_tensor_type journal].

Lemma length_sorted_checkpoints m :
  length (sorted_checkpoints m) = length (pth_files m).
Proof.
  unfold sorted_checkpoints. apply Permutation_length, merge_sort_Permutation.
Qed.

(** X8: [load] refuses to start when the number of checkpoint files is not
    the world size: it raises the assertion before it prints, reads a
    checkpoint or touches any state. *)
Theorem load_checks_world_size ckpt_dir tokenizer_path local_rank world_size
    max_seq_len max_batch_size m :
  world_size <> Z.of_nat (length (pth_files m)) ->
  load ckpt_dir tokenizer_path local_rank world_size max_seq_len
       max_batch_size m =
    (Err (AssertionError (length (pth_files m)) world_size), m).
Proof.
  intros Hne. rewrite <- length_sorted_checkpoints in Hne |- *.
  unfold load. cbv [mbind B_bind get throw].
  destruct (Z.eqb_spec world_size (Z.of_nat (length (sorted_checkpoints m))));
    [done | reflexivity].
Qed.

(** X9: a [LOCAL_RANK] that is set but is no integer stops the start-up
    with [ValueError] before any library call. *)
Theorem init_generator_bad_local_rank ckpt_dir tokenizer_path max_seq_len
    max_batch_size m s :
  environ m !! "LOCAL_RANK" = Some s ->
  int_of_str m s = None ->
  init_generator ckpt_dir tokenizer_path max_seq_len max_batch_size m =
    (Err (ValueError s), m).
Proof.
  intros He Hi. destruct m as [en ios pf pj nw ra so tt jo]. simpl in He, Hi.
  unfold init_generator, setup_model_parallel. brun.
  rewrite He, Hi. reflexivity.
Qed.

Ltac innermost x :=
  lazymatch x with
  | context [match _ with _ => _ end] => fail
  | _ => idtac
  end.

Ltac bcases :=
  repeat match goal with
         | |- context [match ?x with _ => _ end] =>
             innermost x; destruct x eqn:?; simpl
         | H : context [match ?x with _ => _ end] |- _ =>
             innermost x; destruct x eqn:?; simpl in H
         end.

(** What a successful [load] has done. *)
Lemma load_ok_inv ckpt_dir tokenizer_path local_rank world_size
    max_seq_len max_batch_size m g :
  fst (load ckpt_dir tokenizer_path local_rank world_size max_seq_len
            max_batch_size m) = Ok g ->
  exists o p,
    params_json m = Some (JObject o) /\
    o !! "max_seq_len" = None /\ o !! "max_batch_size" = None /\
    world_size = Z.of_nat (length (pth_files m)) /\
    py_index (sorted_checkpoints m) local_rank = Some p /\
    let kwargs := <["max_seq_len" := PInt max_seq_len]>
                    (<["max_batch_size" := PInt max_batch_size]> o) in
    let args := <["vocab_size" := PInt (n_words m tokenizer_path)]> kwargs in
    g = LLaMA args p tokenizer_path /\
    snd (load ckpt_dir tokenizer_path local_rank world_size max_seq_len
              max_batch_size m) =
      Machine (environ m) (int_of_str m) (pth_files m) (params_json m)
        (n_words m) (raises m) (stdout m) FloatTensor
        (journal m ++
         [Write (stdout m) Loading; TorchLoad p; ModelArgs kwargs;
          Tokenizer tokenizer_path; SetDefaultTensorType CudaHalfTensor;
          Transformer args; SetDefaultTensorType FloatTensor;
          LoadStateDict p; MakeLLaMA; Write (stdout m) LoadedIn]).
Proof.
  pose proof (length_sorted_checkpoints m) as Hlen.
  destruct m as [en ios pf pj nw ra so tty jo]. simpl in Hlen.
  unfold load. brun.
  set (cps := sorted_checkpoints _) in *.
  destruct (Z.eqb_spec world_size (Z.of_nat (length cps))) as [Hws | Hws];
    simpl; [| discriminate].
  destruct (py_index cps local_rank) as [p |] eqn:Hp; [| discriminate].
  intros Hg. bcases; simplify_eq/=.
  eexists _, _. repeat split; try done; [by rewrite Hlen |].
  by rewrite <- !app_assoc.
Qed.

(** What every run of [load] that got past the assertion and the choice of
    the checkpoint has done, however it ended. *)
Lemma load_any ckpt_dir tokenizer_path local_rank world_size
    max_seq_len max_batch_size m p :
  world_size = Z.of_nat (length (pth_files m)) ->
  py_index (sorted_checkpoints m) local_rank = Some p ->
  let rm := load ckpt_dir tokenizer_path local_rank world_size max_seq_len
                 max_batch_size m in
  loaded (journal (snd rm)) = loaded (journal m) ++ [p] /\
  written (journal (snd rm)) =
    written (journal m) ++
    (stdout m, Loading) ::
    match fst rm with Ok _ => [(stdout m, LoadedIn)] | Err _ => [] end /\
  stdout (snd rm) = stdout m /\
  default_tensor_type (snd rm) =
    match fst rm with
    | Ok _ => FloatTensor
    | Err (Raised (Transformer _))
    | Err (Raised (SetDefaultTensorType FloatTensor)) => CudaHalfTensor
    | Err (Raised (LoadStateDict _)) | Err (Raised MakeLLaMA) => FloatTensor
    | Err _ => default_tensor_type m
    end.
Proof.
  intros Hws Hp.
  rewrite <- length_sorted_checkpoints in Hws.
  destruct m as [en ios pf pj nw ra so tty jo].
  unfold load. brun.
  set (cps := sorted_checkpoints _) in *.
  destruct (Z.eqb_spec world_size (Z.of_nat (length cps))) as [_ | Hne];
    [| done].
  cbv [negb]. rewrite Hp. cbv beta iota zeta.
  unfold loaded, written.
  bcases; cbn [fst snd journal stdout default_tensor_type];
    rewrite ?omap_app; cbn [omap list_omap];
    rewrite ?app_nil_r, <- ?app_assoc; repeat split; reflexivity.
Qed.

Lemma py_index_nat {A} (l : list A) (r : nat) :
  py_index l (Z.of_nat r) = l !! r.
Proof.
  unfold py_index. destruct (Z.leb_spec 0 (Z.of_nat r)); [| lia].
  by rewrite Nat2Z.id.
Qed.

Lemma py_index_wrap {A} (l : list A) (i : Z) :
  - Z.of_nat (length l) <= i < 0 ->
  py_index l i = py_index l (Z.of_nat (length l) + i).
Proof.
  intros Hi. unfold py_index.
  destruct (Z.leb_spec 0 i); [lia |].
  destruct (Z.leb_spec (- Z.of_nat (length l)) i); [| lia].
  destruct (Z.leb_spec 0 (Z.of_nat (length l) + i)); [done | lia].
Qed.

Lemma py_index_out {A} (l : list A) (i : Z) :
  Z.of_nat (length l) <= i \/ i < - Z.of_nat (length l) ->
  py_index l i = None.
Proof.
  intros Hi. unfold py_index.
  destruct (Z.leb_spec 0 i).
  - apply lookup_ge_None. lia.
  - destruct (Z.leb_spec (- Z.of_nat (length l)) i); [lia | done].
Qed.

(** [load] uses its [local_rank] only to choose the checkpoint. *)
Lemma load_same_index ckpt_dir tokenizer_path lr1 lr2 world_size
    max_seq_len max_batch_size m :
  py_index (sorted_checkpoints m) lr1 = py_index (sorted_checkpoints m) lr2 ->
  load ckpt_dir tokenizer_path lr1 world_size max_seq_len max_batch_size m =
  load ckpt_dir tokenizer_path lr2 world_size max_seq_len max_batch_size m.
Proof.
  intros Hi. unfold load. cbv [mbind B_bind get]. by rewrite Hi.
Qed.

(** X11: a negative [local_rank] counts from the end, as Python's indices
    do: with [LOCAL_RANK] unset (-1) and the right world size, the process
    does exactly what the last rank does, reading the same checkpoint. *)
Theorem load_negative_rank ckpt_dir tokenizer_path local_rank
    max_seq_len max_batch_size m :
  let n := Z.of_nat (length (pth_files m)) in
  - n <= local_rank < 0 ->
  load ckpt_dir tokenizer_path local_rank n max_seq_len max_batch_size m =
  load ckpt_dir tokenizer_path (n + local_rank) n max_seq_len
       max_batch_size m.
Proof.
  intros n Hr. apply load_same_index.
  subst n. rewrite <- length_sorted_checkpoints in *.
  by apply py_index_wrap.
Qed.

(** X12: with the right world size, a [local_rank] that is no index of the
    list of checkpoints, from either end, raises [IndexError] before
    anything is printed or read. *)
Theorem load_rank_out_of_range ckpt_dir tokenizer_path local_rank
    max_seq_len max_batch_size m :
  let n := Z.of_nat (length (pth_files m)) in
  n <= local_rank \/ local_rank < - n ->
  load ckpt_dir tokenizer_path local_rank n max_seq_len max_batch_size m =
    (Err IndexError, m).
Proof.
  intros n Hr. subst n. rewrite <- length_sorted_checkpoints in *.
  unfold load. cbv [mbind B_bind get throw].
  rewrite Z.eqb_refl. cbv [negb].
  by rewrite (py_index_out _ _ Hr).
Qed.

(** X13: the default tensor type is switched to CUDA half precision for the
    construction of the model only when construction returns: a [load] that
    returns leaves it at [FloatTensor], one in which [Transformer] raises
    leaves it at [CudaHalfTensor]. *)
Theorem load_default_tensor_type ckpt_dir tokenizer_path local_rank world_size
    max_seq_len max_batch_size m :
  let rm := load ckpt_dir tokenizer_path local_rank world_size max_seq_len
                 max_batch_size m in
  (forall g, fst rm = Ok g -> default_tensor_type (snd rm) = FloatTensor) /\
  (forall args, fst rm = Err (Raised (Transformer args)) ->
     default_tensor_type (snd rm) = CudaHalfTensor).
Proof.
  intros rm.
  destruct (decide (world_size = Z.of_nat (length (pth_files m)))) as [Hws | Hws].
  2: { subst rm. rewrite load_checks_world_size by done. split; discriminate. }
  destruct (py_index (sorted_checkpoints m) local_rank) as [p |] eqn:Hp.
  2: { subst rm. unfold load. cbv [mbind B_bind get throw]. rewrite Hp.
       destruct (negb _); split; discriminate. }
  destruct (load_any ckpt_dir tokenizer_path local_rank world_size max_seq_len
              max_batch_size m p Hws Hp) as (_ & _ & _ & Ht).
  fold rm in Ht. clearbody rm. split.
  - intros g Hg. by rewrite Hg in Ht.
  - intros args Ha. by rewrite Ha in Ht.
Qed.

(** X14: a [params.json] that has a member [max_seq_len] or
    [max_batch_size] makes [load] raise [TypeError] at the construction of
    [ModelArgs], after the checkpoint was read and before the tokenizer or
    the model is built. *)
Theorem load_params_clash ckpt_dir tokenizer_path local_rank world_size
    max_seq_len max_batch_size m p o :
  world_size = Z.of_nat (length (pth_files m)) ->
  py_index (sorted_checkpoints m) local_rank = Some p ->
  raises m (TorchLoad p) = false ->
  params_json m = Some (JObject o) ->
  is_Some (o !! "max_seq_len") \/ is_Some (o !! "max_batch_size") ->
  let rm := load ckpt_dir tokenizer_path local_rank world_size max_seq_len
                 max_batch_size m in
  fst rm = Err TypeError /\
  journal (snd rm) = journal m ++ [Write (stdout m) Loading; TorchLoad p].
Proof.
  intros Hws Hp Hra Hpj Ho.
  rewrite <- length_sorted_checkpoints in Hws.
  destruct m as [en ios pf pj nw ra so tty jo]. simpl in Hra, Hpj. subst pj.
  unfold load. brun.
  set (cps := sorted_checkpoints _) in *.
  destruct (Z.eqb_spec world_size (Z.of_nat (length cps))) as [_ | Hne];
    [| done].
  cbv [negb]. rewrite Hp. cbv beta iota zeta. rewrite Hra.
  cbv beta iota zeta.
  destruct Ho as [[v Hv] | [v Hv]]; rewrite Hv.
  - cbn. by rewrite <- app_assoc.
  - destruct (o !! "max_seq_len"); cbn; by rewrite <- app_assoc.
Qed.

(** X15: the generator a successful [load] returns holds the chosen
    checkpoint and a model built with [vocab_size] set to the number of
    words of the tokenizer, whatever [params.json] says, with the caller's
    [max_seq_len] and [max_batch_size], and with every other argument as
    [params.json] has it. *)
Theorem load_model_args ckpt_dir tokenizer_path local_rank world_size
    max_seq_len max_batch_size m g :
  fst (load ckpt_dir tokenizer_path local_rank world_size max_seq_len
            max_batch_size m) = Ok g ->
  model_args g !! "vocab_size" = Some (PInt (n_words m tokenizer_path)) /\
  model_args g !! "max_seq_len" = Some (PInt max_seq_len) /\
  model_args g !! "max_batch_size" = Some (PInt max_batch_size) /\
  (exists o, params_json m = Some (JObject o) /\
     forall k, k <> "vocab_size" -> k <> "max_seq_len" ->
               k <> "max_batch_size" -> model_args g !! k = o !! k) /\
  py_index (sorted_checkpoints m) local_rank = Some (state_dict g) /\
  tokenizer_model g = tokenizer_path.
Proof.
  intros Hg.
  destruct (load_ok_inv _ _ _ _ _ _ _ _ Hg)
    as (o & p & Hpj & _ & _ & _ & Hp & Hgen & _).
  cbv zeta in Hgen. subst g. cbn [model_args state_dict tokenizer_model].
  repeat split; try done.
  - by rewrite lookup_insert_eq.
  - rewrite lookup_insert_ne by done. by rewrite lookup_insert_eq.
  - rewrite !lookup_insert_ne by done. by rewrite lookup_insert_eq.
  - exists o. split; [done |]. intros k H1 H2 H3.
    by rewrite !lookup_insert_ne by done.
Qed.

Lemma flat_map_Forall_ext {A C} (f g : A -> list C) l :
  Forall (fun a => f a = g a) l -> flat_map f l = flat_map g l.
Proof.
  induction 1 as [| a l Ha _ IH]; [done |]. simpl. by rewrite Ha, IH.
Qed.

Lemma flat_map_lookups {A} (l : list A) :
  flat_map (fun r => option_list (l !! r)) (seq 0 (length l)) = l.
Proof.
  induction l as [| x l IH] using rev_ind; [done |].
  rewrite length_app. simpl length. rewrite Nat.add_1_r, seq_S.
  rewrite flat_map_app. simpl.
  rewrite lookup_app_r, Nat.sub_diag by done. simpl.
  f_equal. rewrite <- IH at 2. apply flat_map_Forall_ext.
  apply Forall_forall. intros r Hr%elem_of_seq.
  rewrite lookup_app_l by lia. done.
Qed.

(** X10: with the right world size, the ranks [0 .. n-1] read the
    checkpoint files in the order of their names, one each: the checkpoints
    read, rank by rank, are the files found, sorted. *)
Theorem shards_partition ckpt_dir tokenizer_path max_seq_len max_batch_size m :
  let n := length (pth_files m) in
  let shards :=
    flat_map (fun r => loaded (journal (snd
                (load ckpt_dir tokenizer_path (Z.of_nat r) (Z.of_nat n)
                      max_seq_len max_batch_size m))))
             (seq 0 n) in
  loaded (journal m) = [] ->
  shards = merge_sort String.le (pth_files m) /\
  shards ≡ₚ pth_files m /\
  Sorted String.le shards.
Proof.
  intros n shards Hfresh.
  assert (Hs : shards = merge_sort String.le (pth_files m)).
  { subst shards.
    rewrite <- (flat_map_lookups (merge_sort String.le (pth_files m))).
    fold (sorted_checkpoints m). rewrite length_sorted_checkpoints. fold n.
    apply flat_map_Forall_ext, Forall_forall. intros r Hr%elem_of_seq.
    destruct (lookup_lt_is_Some_2 (sorted_checkpoints m) r) as [p Hp].
    { rewrite length_sorted_checkpoints. fold n. lia. }
    destruct (load_any ckpt_dir tokenizer_path (Z.of_nat r) (Z.of_nat n)
                max_seq_len max_batch_size m p eq_refl) as (Hl & _).
    { by rewrite py_index_nat. }
    rewrite Hl, Hfresh, Hp. done. }
  clearbody shards. subst shards. split; [done | split].
  - apply merge_sort_Permutation.
  - apply Sorted_merge_sort. apply _.
Qed.

(** What [setup_model_parallel] leaves as it found it, and what it
    returns. *)
Lemma setup_model_parallel_run m :
  let rm := setup_model_parallel m in
  written (journal (snd rm)) = written (journal m) /\
  loaded (journal (snd rm)) = loaded (journal m) /\
  stdout (snd rm) = stdout m /\
  (forall lr ws, fst rm = Ok (lr, ws) ->
     match environ m !! "LOCAL_RANK" with
     | Some s => int_of_str m s = Some lr
     | None => lr = -1
     end /\
     match environ m !! "WORLD_SIZE" with
     | Some s => int_of_str m s = Some ws
     | None => ws = -1
     end).
Proof.
  destruct m as [en ios pf pj nw ra so tty jo].
  unfold setup_model_parallel. brun. unfold written, loaded.
  bcases; cbn [fst snd journal stdout];
    rewrite ?omap_app; cbn [omap list_omap]; rewrite ?app_nil_r;
    (split; [| split; [| split]]); try done;
    intros lr' ws' Heq; simplify_eq; done.
Qed.

(** Where [load] writes. *)
Lemma load_written ckpt_dir tokenizer_path local_rank world_size
    max_seq_len max_batch_size m :
  let rm := load ckpt_dir tokenizer_path local_rank world_size max_seq_len
                 max_batch_size m in
  exists l,
    written (journal (snd rm)) = written (journal m) ++ l /\
    Forall (fun x => fst x = stdout m) l.
Proof.
  intros rm.
  destruct (decide (world_size = Z.of_nat (length (pth_files m)))) as [Hws | Hws].
  2: { subst rm. rewrite load_checks_world_size by done.
       exists []. by rewrite app_nil_r. }
  destruct (py_index (sorted_checkpoints m) local_rank) as [p |] eqn:Hp.
  2: { subst rm. unfold load. cbv [mbind B_bind get throw]. rewrite Hp.
       exists []. destruct (negb _); by rewrite app_nil_r. }
  destruct (load_any ckpt_dir tokenizer_path local_rank world_size max_seq_len
              max_batch_size m p Hws Hp) as (_ & Hw & _).
  fold rm in Hw. clearbody rm. eexists. split; [exact Hw |].
  destruct (fst rm); repeat constructor.
Qed.

Lemma B_bind_eq {A C} (c : B A) (k : A -> B C) m :
  (c ≫= k) m =
    match c m with
    | (Ok a, m') => k a m'
    | (Err e, m') => (Err e, m')
    end.
Proof. reflexivity. Qed.

(** The redirection of [sys.stdout] in [init_generator]. *)
Lemma redirect_run (lr : Z) m :
  let rm := (if Z.ltb 0 lr
             then invoke OpenDevnull;; set_stdout DevNull
             else mret tt) m in
  written (journal (snd rm)) = written (journal m) /\
  loaded (journal (snd rm)) = loaded (journal m) /\
  pth_files (snd rm) = pth_files m /\
  (fst rm = Ok tt -> stdout (snd rm) = if Z.ltb 0 lr then DevNull else stdout m).
Proof.
  destruct m as [en ios pf pj nw ra so tty jo].
  destruct (Z.ltb 0 lr); [| done].
  brun. unfold written, loaded.
  destruct (ra OpenDevnull); cbn [fst snd journal stdout pth_files];
    rewrite ?omap_app; cbn [omap list_omap]; rewrite ?app_nil_r; done.
Qed.

(** X16: during [init_generator] a process whose [LOCAL_RANK] is positive
    prints to [os.devnull] only, and any other process prints where
    [sys.stdout] pointed when it started. *)
Theorem init_generator_stdout ckpt_dir tokenizer_path max_seq_len
    max_batch_size m lr :
  match environ m !! "LOCAL_RANK" with
  | Some s => int_of_str m s = Some lr
  | None => lr = -1
  end ->
  let rm := init_generator ckpt_dir tokenizer_path max_seq_len
              max_batch_size m in
  exists l,
    written (journal (snd rm)) = written (journal m) ++ l /\
    Forall (fun x => fst x = if Z.ltb 0 lr then DevNull else stdout m) l.
Proof.
  intros Hlr rm. subst rm. unfold init_generator. rewrite B_bind_eq.
  pose proof (setup_model_parallel_run m) as (Hw1 & _ & Hso1 & Hret).
  cbv zeta in Hw1, Hso1, Hret.
  destruct (setup_model_parallel m) as [[[lr' ws] | e] m1].
  2: { exists []. cbn [fst snd] in *. by rewrite app_nil_r. }
  cbn [fst snd] in *.
  destruct (Hret lr' ws eq_refl) as [Hlr' _].
  assert (lr' = lr) as ->.
  { destruct (environ m !! "LOCAL_RANK"); congruence. }
  rewrite B_bind_eq.
  pose proof (redirect_run lr m1) as (Hw2 & _ & _ & Hso2). cbv zeta in Hw2, Hso2.
  destruct ((if Z.ltb 0 lr then invoke OpenDevnull;; set_stdout DevNull
             else mret tt) m1) as [[[] | e] m2].
  2: { exists []. cbn [fst snd] in *. rewrite app_nil_r. split; [congruence | constructor]. }
  cbn [fst snd] in *. specialize (Hso2 eq_refl).
  destruct (load_written ckpt_dir tokenizer_path lr ws max_seq_len
              max_batch_size m2) as (l & Hl & Hall).
  exists l. split; [congruence |].
  rewrite Hso2, Hso1 in Hall. exact Hall.
Qed.

(** X17: without [WORLD_SIZE] in the environment [init_generator] never
    returns a generator: whatever happens before, [load] is reached with a
    world size of -1 and stops at its assertion, so that no checkpoint is
    read and nothing is printed. *)
Theorem init_generator_needs_world_size ckpt_dir tokenizer_path max_seq_len
    max_batch_size m :
  environ m !! "WORLD_SIZE" = None ->
  let rm := init_generator ckpt_dir tokenizer_path max_seq_len
              max_batch_size m in
  (forall g, fst rm <> Ok g) /\
  loaded (journal (snd rm)) = loaded (journal m) /\
  written (journal (snd rm)) = written (journal m).
Proof.
  intros Hws rm. subst rm. unfold init_generator. rewrite B_bind_eq.
  pose proof (setup_model_parallel_run m) as (Hw1 & Hl1 & _ & Hret).
  cbv zeta in Hw1, Hl1, Hret.
  destruct (setup_model_parallel m) as [[[lr ws] | e] m1].
  2: { cbn [fst snd] in *. done. }
  cbn [fst snd] in *.
  destruct (Hret lr ws eq_refl) as [_ Hws']. rewrite Hws in Hws'. subst ws.
  rewrite B_bind_eq.
  pose proof (redirect_run lr m1) as (Hw2 & Hl2 & _ & _). cbv zeta in Hw2, Hl2.
  destruct ((if Z.ltb 0 lr then invoke OpenDevnull;; set_stdout DevNull
             else mret tt) m1) as [[[] | e] m2].
  2: { cbn [fst snd] in *. split; [done | split; congruence]. }
  cbn [fst snd] in *.
  rewrite load_checks_world_size by lia. cbn [fst snd].
  split; [done | split; congruence].
Qed.

End BootFacts.

(** ** The further properties at concrete inputs *)


(** X2 on a connection whose broadcast raises. *)
Lemma ws_no_round_witness :
  let bc := [BcErr (RuntimeError "NCCL communicator was aborted")] in
  let rw := generate_ws example_dumps
              (ws_world (counting_engine 3) [Text "Hello"] None bc) in
  broadcasts (trace (snd rw)) = [] /\ engine_calls (trace (snd rw)) = [] /\
  sent_frames (trace (snd rw)) = [] /\
  fst rw <> Ret tt /\ (EClose ∉ trace (snd rw)) /\
  received (trace (snd rw)) = ["Hello"] /\
  read (trace (snd rw)) = [Text "Hello"].
Proof.
  pose proof (ws_no_round example_dumps (counting_engine 3) [Text "Hello"]
                None
                [BcErr (RuntimeError "NCCL communicator was aborted")]) as H.
  cbv zeta in H.
  destruct H as (H1 & H2 & H3 & H4 & H5 & _ & H7 & H8);
    [right; right; right; eauto |].
  exact (conj H1 (conj H2 (conj H3 (conj H4 (conj H5 (conj H7 H8)))))).
Defined.

(** X3 on twelve events and three acknowledgments, of which two are
    read, with a client that takes the twelve frames and the close. *)
Lemma ws_acks_consumed_witness :
  let g := counting_engine 12 ProbsStream (stream_args (PStr "Hello")) in
  let acks := [Text "a"; Text "b"; Text "c"] in
  let rw := generate_ws example_dumps
              (ws_world (counting_engine 12) (Text "Hello" :: acks)
                 (Some 13%nat) [BcOk []]) in
  (length (items g) <= length (leading_texts acks) + 10)%nat /\
  takes_at_least (Some 13%nat) (S (length (items g))) /\
  fst rw = Ret tt /\
  read (trace (snd rw)) = [Text "Hello"; Text "a"; Text "b"] /\
  inbox (snd rw) = [Text "c"].
Proof.
  split; [vm_compute; lia | split; [vm_compute; lia |]].
  pose proof (ws_acks_consumed example_dumps (counting_engine 12) "Hello"
                [Text "a"; Text "b"; Text "c"] (Some 13%nat) [] [])
    as H.
  cbv zeta in H.
  destruct H as (Hres & Hr & Hi & _); [vm_compute; lia | vm_compute; lia |].
  split; [exact Hres | split; [exact Hr | exact Hi]].
Defined.

(** X4 on twelve events and no acknowledgment, with a client that would
    take twelve frames. *)
Lemma ws_stalls_unacknowledged_witness :
  let g := counting_engine 12 ProbsStream (stream_args (PStr "Hello")) in
  let rw := generate_ws example_dumps
              (ws_world (counting_engine 12) (Text "Hello" :: map Text [])
                 (Some 12%nat) [BcOk []]) in
  (length (@nil string) + 10 < length (items g))%nat /\
  takes_at_least (Some 12%nat) (length (@nil string) + 11) /\
  fst rw = Wait /\
  pulled (trace (snd rw)) = take 11 (items g).
Proof.
  split; [vm_compute; lia | split; [vm_compute; lia |]].
  pose proof (ws_stalls_unacknowledged example_dumps (counting_engine 12)
                "Hello" [] (Some 12%nat) [] []) as H.
  cbv zeta in H.
  destruct H as (Hr & _ & _ & Hp & _); [vm_compute; lia | vm_compute; lia |].
  split; [exact Hr | exact Hp].
Defined.

(** X5 on two clients that acknowledge with different texts. *)
Lemma ack_content_irrelevant_witness :
  let rw1 := generate_ws example_dumps
               (ws_world (counting_engine 12)
                  [Text "Hello"; Text "ok"; Text "ok"] None [BcOk []]) in
  let rw2 := generate_ws example_dumps
               (ws_world (counting_engine 12)
                  [Text "Hello"; Text "1"; Text "2"] None [BcOk []]) in
  Forall2 same_kind [Text "ok"; Text "ok"] [Text "1"; Text "2"] /\
  fst rw1 = fst rw2 /\
  sent_frames (trace (snd rw1)) = sent_frames (trace (snd rw2)).
Proof.
  assert (Hk : Forall2 same_kind [Text "ok"; Text "ok"] [Text "1"; Text "2"])
    by (repeat constructor).
  split; [exact Hk |].
  pose proof (ack_content_irrelevant example_dumps (counting_engine 12)
                "Hello" [Text "ok"; Text "ok"] [Text "1"; Text "2"]
                None [] [] Hk) as H.
  cbv zeta in H. destruct H as (Hr & Hs & _).
  split; [exact Hr | exact Hs].
Defined.

(** X6 on three events, with a client that takes the three frames and the
    close. *)
Lemma transports_agree_witness :
  let o : gmap string pyval := hello_body in
  let g := counting_engine 3 ProbsStream (stream_args (PStr "Hello")) in
  let http := serve_generate example_dumps
                (http_world (counting_engine 3) (JObject o) [BcOk []]) in
  let ws := generate_ws example_dumps
              (ws_world (counting_engine 3) [Text "Hello"]
                 (Some 4%nat) [BcOk []]) in
  o !! "text" = Some (PStr "Hello") /\
  (length (items g) <= length (leading_texts []) + 10)%nat /\
  takes_at_least (Some 4%nat) (S (length (items g))) /\
  yielded (trace (snd http)) = sent_frames (trace (snd ws)) ++ [eos].
Proof.
  split; [reflexivity | split; [vm_compute; lia | split; [vm_compute; lia |]]].
  pose proof (transports_agree example_dumps (counting_engine 3) hello_body
                "Hello" [] (Some 4%nat) [] [] [] [] eq_refl) as H.
  cbv zeta in H.
  destruct H as [H _]; [vm_compute; lia | vm_compute; lia |]. exact H.
Defined.

(** X18 on twelve events and a client whose first acknowledgment is a
    binary frame. *)
Lemma ws_binary_frame_witness :
  let g := counting_engine 12 ProbsStream (stream_args (PStr "Hello")) in
  let rw := generate_ws example_dumps
              (ws_world (counting_engine 12)
                 (Text "Hello" :: map Text [] ++ Binary [Byte.x01] :: [])
                 None [BcOk []]) in
  (length (@nil string) + 10 < length (items g))%nat /\
  takes_at_least None (length (@nil string) + 11) /\
  fst rw = Exc (KeyError "text") /\
  length (sent_frames (trace (snd rw))) = 11%nat.
Proof.
  split; [vm_compute; lia | split; [exact I |]].
  pose proof (proj2 (ws_binary_frame example_dumps) (counting_engine 12)
                "Hello" [] [Byte.x01] [] None [] []) as H.
  cbv zeta in H.
  destruct H as (Hr & _ & _ & Hs & _); [vm_compute; lia | exact I |].
  split; [exact Hr |]. rewrite Hs. vm_compute. reflexivity.
Defined.

(** X19 on twelve events and a client that goes away after three
    frames. *)
Lemma ws_peer_departed_witness :
  let g := counting_engine 12 ProbsStream (stream_args (PStr "Hello")) in
  let rw := generate_ws example_dumps
              (ws_world (counting_engine 12) [Text "Hello"]
                 (Some 3%nat) [BcOk []]) in
  (3 <= length (leading_texts []) + 10)%nat /\
  (3 < length (items g))%nat /\
  fst rw = Exc WebSocketDisconnect /\
  sent_frames (trace (snd rw)) =
    map (token_json example_dumps) (take 3 (items g)) /\
  pulled (trace (snd rw)) = take 4 (items g).
Proof.
  assert (H1 : (3 <= length (leading_texts []) + 10)%nat)
    by (vm_compute; lia).
  assert (H2 : (3 < length (items (counting_engine 12 ProbsStream
                                     (stream_args (PStr "Hello")))))%nat)
    by (vm_compute; lia).
  split; [exact H1 | split; [exact H2 |]].
  pose proof (ws_peer_departed example_dumps (counting_engine 12) "Hello"
                [] 3%nat [] [] H1) as H.
  cbv zeta in H. destruct H as [H _].
  destruct (H H2) as (Hr & Hs & Hp & _).
  split; [exact Hr | split; [exact Hs | exact Hp]].
Defined.

(** X7 on a follower that is delivered two Commands around a failed
    broadcast, its engine failing every time. *)
Lemma follower_rounds_in_order_witness :
  let e := RuntimeError "CUDA error" in
  let bc := [deliver (stream_args (PStr "a")); BcErr e;
             deliver (stream_args (PStr "b"))] in
  let t := trace (snd (follower_loop 3
                         (follower_world 1 (failing_engine 0 e) bc))) in
  1 <> 0 /\
  engine_calls t = [stream_args (PStr "a"); stream_args (PStr "b")].
Proof.
  split; [discriminate |].
  pose proof (follower_rounds_in_order 1
                (failing_engine 0 (RuntimeError "CUDA error"))
                [deliver (stream_args (PStr "a"));
                 BcErr (RuntimeError "CUDA error");
                 deliver (stream_args (PStr "b"))] 3%nat) as H.
  cbv zeta in H. destruct H as [H _]; [discriminate |]. exact H.
Defined.

Section BootWitnesses.

Import Boot.

(** X8 on a process told of three ranks in front of two checkpoints. *)
Lemma load_checks_world_size_witness :
  let m := example_machine (torchrun_env "0") (JObject example_params)
             no_call in
  3 <> Z.of_nat (length (pth_files m)) /\
  load "ckpt" "tokenizer.model" 0 3 2048 1 m = (Err (AssertionError 2 3), m).
Proof.
  split; [vm_compute; discriminate |].
  apply (load_checks_world_size "ckpt" "tokenizer.model" 0 3 2048 1
           (example_machine (torchrun_env "0") (JObject example_params)
              no_call)).
  vm_compute. discriminate.
Defined.

(** X9 on [LOCAL_RANK=zero]. *)
Lemma init_generator_bad_local_rank_witness :
  let m := example_machine (torchrun_env "zero") (JObject example_params)
             no_call in
  environ m !! "LOCAL_RANK" = Some "zero" /\
  int_of_str m "zero" = None /\
  init_generator "ckpt" "tokenizer.model" 2048 1 m =
    (Err (ValueError "zero"), m).
Proof.
  split; [reflexivity | split; [reflexivity |]].
  apply (init_generator_bad_local_rank "ckpt" "tokenizer.model" 2048 1
           (example_machine (torchrun_env "zero") (JObject example_params)
              no_call) "zero");
    reflexivity.
Defined.

(** X10 on the two checkpoints of the example, found in the other order. *)
Lemma shards_partition_witness :
  let m := example_machine (torchrun_env "0") (JObject example_params)
             no_call in
  loaded (journal m) = [] /\
  flat_map (fun r => loaded (journal (snd
              (load "ckpt" "tokenizer.model" (Z.of_nat r)
                    (Z.of_nat (length (pth_files m))) 2048 1 m))))
           (seq 0 (length (pth_files m))) =
    ["consolidated.00.pth"; "consolidated.01.pth"].
Proof.
  split; [reflexivity |].
  pose proof (shards_partition "ckpt" "tokenizer.model" 2048 1
                (example_machine (torchrun_env "0") (JObject example_params)
                   no_call) eq_refl) as H.
  cbv zeta in H. destruct H as [H _]. rewrite H. vm_compute. reflexivity.
Defined.

(** X11 with [LOCAL_RANK] unset: the process does what rank 1 of 2 does. *)
Lemma load_negative_rank_witness :
  let m := example_machine {["WORLD_SIZE" := "2"]} (JObject example_params)
             no_call in
  - Z.of_nat (length (pth_files m)) <= -1 < 0 /\
  load "ckpt" "tokenizer.model" (-1) (Z.of_nat (length (pth_files m)))
       2048 1 m =
  load "ckpt" "tokenizer.model" (Z.of_nat (length (pth_files m)) + -1)
       (Z.of_nat (length (pth_files m))) 2048 1 m.
Proof.
  split; [simpl; lia |].
  apply (load_negative_rank "ckpt" "tokenizer.model" (-1) 2048 1
           (example_machine {["WORLD_SIZE" := "2"]} (JObject example_params)
              no_call)).
  simpl. lia.
Defined.

(** X12 on local rank 2 of 2. *)
Lemma load_rank_out_of_range_witness :
  let m := example_machine (torchrun_env "2") (JObject example_params)
             no_call in
  (Z.of_nat (length (pth_files m)) <= 2 \/
   2 < - Z.of_nat (length (pth_files m))) /\
  load "ckpt" "tokenizer.model" 2 (Z.of_nat (length (pth_files m)))
       2048 1 m = (Err IndexError, m).
Proof.
  split; [left; vm_compute; discriminate |].
  apply (load_rank_out_of_range "ckpt" "tokenizer.model" 2 2048 1
           (example_machine (torchrun_env "2") (JObject example_params)
              no_call)).
  left. vm_compute. discriminate.
Defined.

(** X13 on a machine where the construction of the model raises. *)
Lemma load_default_tensor_type_witness :
  let m := example_machine (torchrun_env "0") (JObject example_params)
             transformer_call in
  let rm := load "ckpt" "tokenizer.model" 0 2 2048 1 m in
  (exists args, fst rm = Err (Raised (Transformer args))) /\
  default_tensor_type (snd rm) = CudaHalfTensor.
Proof.
  assert (H : exists args,
             fst (load "ckpt" "tokenizer.model" 0 2 2048 1
                    (example_machine (torchrun_env "0")
                       (JObject example_params) transformer_call)) =
             Err (Raised (Transformer args))).
  { vm_compute. eexists. reflexivity. }
  split; [exact H |]. destruct H as [args Ha].
  exact (proj2 (load_default_tensor_type "ckpt" "tokenizer.model" 0 2 2048 1
                  (example_machine (torchrun_env "0")
                     (JObject example_params) transformer_call)) args Ha).
Defined.

(** X14 on a [params.json] that sets [max_seq_len]. *)
Lemma load_params_clash_witness :
  let o : gmap string pyval := <["max_seq_len" := PInt 512]> example_params in
  let m := example_machine (torchrun_env "0") (JObject o) no_call in
  let rm := load "ckpt" "tokenizer.model" 0 2 2048 1 m in
  is_Some (o !! "max_seq_len") /\
  fst rm = Err TypeError /\
  journal (snd rm) =
    journal m ++ [Write (stdout m) Loading; TorchLoad "consolidated.00.pth"].
Proof.
  split; [by eexists |].
  apply (load_params_clash "ckpt" "tokenizer.model" 0 2 2048 1
           (example_machine (torchrun_env "0")
              (JObject (<["max_seq_len" := PInt 512]> example_params))
              no_call)
           "consolidated.00.pth"
           (<["max_seq_len" := PInt 512]> example_params));
    [reflexivity | vm_compute; reflexivity | reflexivity | reflexivity |].
  left. by eexists.
Defined.

(** X15 on a start-up in which nothing raises. *)
Lemma load_model_args_witness :
  let m := example_machine (torchrun_env "1") (JObject example_params)
             no_call in
  exists g,
    fst (load "ckpt" "tokenizer.model" 1 2 2048 1 m) = Ok g /\
    model_args g !! "vocab_size" = Some (PInt 32000) /\
    model_args g !! "max_seq_len" = Some (PInt 2048) /\
    state_dict g = "consolidated.01.pth".
Proof.
  assert (H : exists g,
             fst (load "ckpt" "tokenizer.model" 1 2 2048 1
                    (example_machine (torchrun_env "1")
                       (JObject example_params) no_call)) = Ok g /\
             state_dict g = "consolidated.01.pth").
  { vm_compute. eexists. split; reflexivity. }
  destruct H as (g & Hg & Hs). exists g.
  destruct (load_model_args "ckpt" "tokenizer.model" 1 2 2048 1
              (example_machine (torchrun_env "1") (JObject example_params)
                 no_call) g Hg) as (Hv & Hm & _).
  repeat split; assumption.
Defined.

(** X16 on a process of local rank 1. *)
Lemma init_generator_stdout_witness :
  let m := example_machine (torchrun_env "1") (JObject example_params)
             no_call in
  let rm := init_generator "ckpt" "tokenizer.model" 2048 1 m in
  int_of_str m "1" = Some 1 /\
  exists l,
    written (journal (snd rm)) = written (journal m) ++ l /\
    Forall (fun x => fst x = if Z.ltb 0 1 then DevNull else stdout m) l.
Proof.
  split; [reflexivity |].
  apply (init_generator_stdout "ckpt" "tokenizer.model" 2048 1
           (example_machine (torchrun_env "1") (JObject example_params)
              no_call) 1).
  reflexivity.
Defined.

(** X17 on an empty environment. *)
Lemma init_generator_needs_world_size_witness :
  let m := example_machine ∅ (JObject example_params) no_call in
  let rm := init_generator "ckpt" "tokenizer.model" 2048 1 m in
  environ m !! "WORLD_SIZE" = None /\
  (forall g, fst rm <> Ok g) /\
  loaded (journal (snd rm)) = loaded (journal m) /\
  written (journal (snd rm)) = written (journal m).
Proof.
  split; [reflexivity |].
  apply (init_generator_needs_world_size "ckpt" "tokenizer.model" 2048 1
           (example_machine ∅ (JObject example_params) no_call)).
  reflexivity.
Defined.

End BootWitnesses.
